(** * TechContentGenerator: retry, extraction, formatting and staging

    A shallow embedding of [src/interactive_content_generator.py]:
    the [TechContentGenerator] class with its tenacity-wrapped
    [generate_with_retry], the regex based [extract_code_block], the
    nested [format_code] and the four-stage [generate_technical_content].

    Python text is a sequence of Unicode code points, so a [str] is a list
    of code points ([N]).  Exceptions are values of [exn]; effectful
    code runs in a state-and-exception monad whose state is the trace of
    externally visible events (model calls, sleeps, callbacks, log
    lines). *)

From Stdlib Require Import String Ascii List NArith ZArith Bool Arith Lia.
Import ListNotations.

Set Implicit Arguments.

(* ================================================================== *)
(** ** Python strings *)

Module PyStr.

Definition char := N.
Definition str := list char.

(** A Rocq literal read as ASCII text. *)
Definition lit (s : string) : str := map N_of_ascii (list_ascii_of_string s).

(** ["\n"] *)
Definition nl : str := [10%N].

Definition char_eqb (a b : char) : bool := N.eqb a b.

Fixpoint str_eqb (a b : str) : bool :=
  match a, b with
  | [], [] => true
  | x :: a', y :: b' => char_eqb x y && str_eqb a' b'
  | _, _ => false
  end.

(** [str.isspace] on one code point, as [str.strip()] uses it
    (CPython's [_PyUnicode_IsWhitespace]). *)
Definition isspace (c : char) : bool :=
  ((9 <=? c) && (c <=? 13) || (28 <=? c) && (c <=? 32)
   || (c =? 133) || (c =? 160) || (c =? 5760)
   || (8192 <=? c) && (c <=? 8202)
   || (c =? 8232) || (c =? 8233) || (c =? 8239) || (c =? 8287)
   || (c =? 12288))%N.

Fixpoint lstrip (s : str) : str :=
  match s with
  | [] => []
  | c :: s' => if isspace c then lstrip s' else s
  end.

Definition rstrip (s : str) : str := rev (lstrip (rev s)).

(** [s.strip()] *)
Definition strip (s : str) : str := rstrip (lstrip s).

(** [strip_prefix p s] is [Some r] when [s = p ++ r]. *)
Fixpoint strip_prefix (p s : str) : option str :=
  match p with
  | [] => Some s
  | x :: p' =>
      match s with
      | [] => None
      | y :: s' => if char_eqb x y then strip_prefix p' s' else None
      end
  end.

(** [s.startswith(p)] *)
Definition startswith (s p : str) : bool :=
  match strip_prefix p s with Some _ => true | None => false end.

End PyStr.
Import PyStr.

(* ================================================================== *)
(** ** The fragment of [re] the extractor uses *)

Module Re.

(** The two patterns of [extract_code_block] are sequences of literals,
    one greedy optional literal [(?:lit)?] and one lazy capture [(.*?)]
    compiled with [re.DOTALL], so that [.] accepts every character. *)
Inductive item :=
| Lit (l : str)
| OptLit (l : str)
| LazyAny.

Definition pattern := list item.

(** The lazy capture: [acc] holds, newest first, what the group has
    taken so far; the rest of the pattern [k] is tried before the group
    takes one more character, so the shortest capture wins. *)
Fixpoint lazy_any (k : str -> option str) (acc s : str) : option str :=
  match k s with
  | Some _ => Some (rev acc)
  | None =>
      match s with
      | [] => None
      | c :: s' => lazy_any k (c :: acc) s'
      end
  end.

(** Backtracking match of a pattern at the head of [s]; the result is
    the text of group 1 (empty when the pattern has no group).
    [OptLit] first tries to consume its literal and falls back to
    skipping it. *)
Fixpoint match_here (p : pattern) (s : str) : option str :=
  match p with
  | [] => Some []
  | Lit l :: p' =>
      match strip_prefix l s with
      | Some r => match_here p' r
      | None => None
      end
  | OptLit l :: p' =>
      match strip_prefix l s with
      | Some r =>
          match match_here p' r with
          | Some g => Some g
          | None => match_here p' s
          end
      | None => match_here p' s
      end
  | LazyAny :: p' => lazy_any (match_here p') [] s
  end.

(** [re.search(p, s, re.DOTALL)] followed by [.group(1)]: the leftmost
    start position at which the pattern matches. *)
Fixpoint search (p : pattern) (s : str) : option str :=
  match match_here p s with
  | Some g => Some g
  | None =>
      match s with
      | [] => None
      | _ :: s' => search p s'
      end
  end.

End Re.

(* ================================================================== *)
(** ** extract_code_block *)

Definition fence : str := lit "```".

(** [r'```(?:python)?\n(.*?)```'] *)
Definition fenced_pattern : Re.pattern :=
  [Re.Lit fence; Re.OptLit (lit "python"); Re.Lit nl; Re.LazyAny; Re.Lit fence].

(** [r'<code>(.*?)</code>'] *)
Definition marker_pattern : Re.pattern :=
  [Re.Lit (lit "<code>"); Re.LazyAny; Re.Lit (lit "</code>")].

(** ["# No code could be extracted\ndef example_function():\n    pass"] *)
Definition default_example : str :=
  lit "# No code could be extracted" ++ nl
  ++ lit "def example_function():" ++ nl
  ++ lit "    pass".

Definition extract_code_block (model_output : str) : str :=
  match Re.search fenced_pattern model_output with
  | Some g => strip g
  | None =>
      match Re.search marker_pattern model_output with
      | Some g => strip g
      | None =>
          if startswith (strip model_output) (lit "def ")
             || startswith (strip model_output) (lit "import ")
          then strip model_output
          else default_example
      end
  end.

Definition spec_example_input : str :=
  lit "Here:" ++ nl ++ lit "```python" ++ nl ++ lit "def f():" ++ nl
  ++ lit "    return 1" ++ nl ++ lit "```" ++ nl ++ lit "end".

(* ================================================================== *)
(** ** Exceptions, events and the effect monad *)

(** The exception classes the code distinguishes.  [RateLimitError],
    [AuthenticationError], [BadRequestError] and [APIError] are the
    classes of the [anthropic] package; the first three are subclasses
    of [anthropic.APIError].  [NonException] stands for a
    [BaseException] outside [Exception] (such as [KeyboardInterrupt]). *)
Inductive exn_class :=
| RateLimitError
| AuthenticationError
| BadRequestError
| APIError
| TypeError
| AttributeError
| OtherException
| NonException.

(** An exception object: its class and [str(e)]. *)
Record exn := { exn_cls : exn_class; exn_text : str }.

(** [isinstance(e, (anthropic.RateLimitError, anthropic.APIError))] *)
Definition is_APIError (e : exn) : bool :=
  match exn_cls e with
  | RateLimitError | AuthenticationError | BadRequestError | APIError => true
  | _ => false
  end.

(** [isinstance(e, Exception)] *)
Definition is_Exception (e : exn) : bool :=
  match exn_cls e with
  | NonException => false
  | _ => true
  end.

Inductive result (A : Type) :=
| Ok (a : A)
| Raise (e : exn).
Arguments Ok {A} a.
Arguments Raise {A} e.

(** The four chat models created by [__init__]. *)
Inductive client := ResearchModel | CreativeModel | BackupModel | CodeModel.

Definition client_eqb (a b : client) : bool :=
  match a, b with
  | ResearchModel, ResearchModel | CreativeModel, CreativeModel
  | BackupModel, BackupModel | CodeModel, CodeModel => true
  | _, _ => false
  end.

(** What a chat model receives: the two messages of a formatted
    [ChatPromptTemplate], or the raw [{}] that [generate_with_retry]
    hands to the backup model. *)
Inductive model_input :=
| ChatMessages (system human : str)
| EmptyDict.

(** Values returned by [invoke]: a chat message or, behind
    [StrOutputParser], a plain string. *)
Inductive pyval :=
| AIMessage (content : str)
| PyStr (s : str).

Inductive log_level := Info | Warning | Error.

(** Externally visible effects, in the order they happen. *)
Inductive event :=
| EInvoke (c : client) (i : model_input)
| ESleep (seconds : Z)
| ELogCallback (message : str)
| EProgressCallback (percent : Z) (message : str)
| ELogger (level : log_level) (message : str)
| EBlack (code : str)
| EIsort (code : str).

Definition trace := list event.

(** Everything outside the class: how each model answers a call (which
    may depend on all that happened before), the two formatters, and
    [str.lower]. *)
Record Env := {
  reply : trace -> client -> model_input -> result str;
  black_format_str : str -> result str;
  isort_code : str -> result str;
  lower : str -> str
}.

Definition M (A : Type) := trace -> result A * trace.

Definition ret {A} (a : A) : M A := fun tr => (Ok a, tr).

Definition bind {A B} (c : M A) (k : A -> M B) : M B :=
  fun tr =>
    match c tr with
    | (Ok a, tr') => k a tr'
    | (Raise e, tr') => (Raise e, tr')
    end.

Definition raise {A} (e : exn) : M A := fun tr => (Raise e, tr).

(** [try: c  except: h e]; a handler that does not catch re-raises. *)
Definition try_catch {A} (c : M A) (h : exn -> M A) : M A :=
  fun tr =>
    match c tr with
    | (Ok a, tr') => (Ok a, tr')
    | (Raise e, tr') => h e tr'
    end.

Definition emit (e : event) : M unit := fun tr => (Ok tt, tr ++ [e]).

Definition lift {A} (r : result A) : M A := fun tr => (r, tr).

Notation "x <- c ;; k" := (bind c (fun x => k))
  (at level 61, c at next level, right associativity).
Notation "c ;; k" := (bind c (fun _ => k))
  (at level 61, right associativity).

(* ================================================================== *)
(** ** tenacity *)

Module Tenacity.

(** [wait_exponential(multiplier, min, max).__call__] with the default
    [exp_base = 2]; [attempt_number] counts from 1. *)
Definition wait_exponential (multiplier min max : Z) (attempt_number : nat) : Z :=
  let exp := (2 ^ Z.of_nat (attempt_number - 1))%Z in
  let result := (multiplier * exp)%Z in
  Z.max (Z.max 0 min) (Z.min result max).

(** [stop_after_attempt(max_attempt_number).__call__] *)
Definition stop_after_attempt (max_attempt_number attempt_number : nat) : bool :=
  max_attempt_number <=? attempt_number.

(** The retry loop of [Retrying.__call__] for
    [retry = retry_if_exception_type()] (the default: any [Exception]),
    [stop = stop_after_attempt(n)] and a [retry_error_callback] that
    returns [retry_state.outcome.result()], which re-raises the last
    exception.  [remaining] is [n - attempt_number]: the loop stops
    when [attempt_number >= n], that is when nothing remains. *)
Fixpoint retrying {A} (wait : nat -> Z) (remaining attempt_number : nat)
         (fn : M A) : M A :=
  try_catch fn
    (fun e =>
       if is_Exception e then
         match remaining with
         | 0 => raise e
         | S r =>
             emit (ESleep (wait attempt_number)) ;;
             retrying wait r (S attempt_number) fn
         end
       else raise e).

(** [@retry(stop=stop_after_attempt(n), wait=w, retry_error_callback=...)] *)
Definition retry {A} (n : nat) (wait : nat -> Z) (fn : M A) : M A :=
  retrying wait (n - 1) 1 fn.

End Tenacity.

(* ================================================================== *)
(** ** TechContentGenerator *)

Section Generator.

Variable env : Env.

(** [model.invoke(...)] on a chat model. *)
Definition invoke_model (c : client) (i : model_input) : M str :=
  fun tr => (reply env tr c i, tr ++ [EInvoke c i]).

(** A runnable [prompt | model] or [prompt | model | StrOutputParser()].
    The prompts are built from ready-made messages and have no template
    variable. *)
Record chain := {
  chain_system : str;
  chain_human : str;
  chain_model : client;
  chain_str_parser : bool
}.

(** The prompt of a chain, formatted. *)
Definition chain_messages (ch : chain) : model_input :=
  ChatMessages (chain_system ch) (chain_human ch).

(** [chain.invoke(prompt)] *)
Definition invoke_chain (ch : chain) (prompt : model_input) : M pyval :=
  content <- invoke_model (chain_model ch) (chain_messages ch) ;;
  ret (if chain_str_parser ch then PyStr content else AIMessage content).

Definition logger (level : log_level) (message : str) : M unit :=
  emit (ELogger level message).

(** [f"Primary model failed: {e}. Attempting backup model..."] *)
Definition primary_failed_message (e : exn) : str :=
  lit "Primary model failed: " ++ exn_text e ++ lit ". Attempting backup model...".

(** [f"Backup model also failed: {backup_error}"] *)
Definition backup_failed_message (backup_error : exn) : str :=
  lit "Backup model also failed: " ++ exn_text backup_error.

(** The body of [generate_with_retry]: one attempt. *)
Definition generate_attempt (model : chain) (prompt : model_input) : M pyval :=
  try_catch (invoke_chain model prompt)
    (fun e =>
       if is_APIError e then
         logger Warning (primary_failed_message e) ;;
         try_catch
           (content <- invoke_model BackupModel prompt ;;
            ret (AIMessage content))
           (fun backup_error =>
              if is_Exception backup_error then
                logger Error (backup_failed_message backup_error) ;;
                raise backup_error
              else raise backup_error)
       else raise e).

(** [wait_exponential(multiplier=1, min=4, max=10)] *)
Definition backoff (attempt_number : nat) : Z :=
  Tenacity.wait_exponential 1 4 10 attempt_number.

(** [generate_with_retry] under an attempt budget of [max_attempts]. *)
Definition generate_with_budget (max_attempts : nat) (model : chain)
           (prompt : model_input) : M pyval :=
  Tenacity.retry max_attempts backoff (generate_attempt model prompt).

(** [generate_with_retry]: the budget is [stop_after_attempt(3)].  The
    parameter [max_tokens] is never read and is left out. *)
Definition generate_with_retry (model : chain) (prompt : model_input) : M pyval :=
  generate_with_budget 3 model prompt.

(** [format_code], the function nested in [generate_technical_content]. *)
Definition format_code (code language : str) : M str :=
  try_catch
    (if str_eqb (lower env language) (lit "python") then
       formatted_code <- (emit (EBlack code) ;; lift (black_format_str env code)) ;;
       formatted_code <- (emit (EIsort formatted_code) ;;
                          lift (isort_code env formatted_code)) ;;
       ret formatted_code
     else ret code)
    (fun e =>
       if is_Exception e then
         logger Error (lit "Code formatting error: " ++ exn_text e) ;;
         ret code
       else raise e).

(** The returned dictionary. *)
Record code_example := {
  original : str;
  formatted : str;
  language : str;
  explanation : str
}.

Record report := {
  blog_structure : str;
  blog_content : str;
  code_example_of : code_example
}.

(** Attribute access [v.content]. *)
Definition get_content (v : pyval) : M str :=
  match v with
  | AIMessage c => ret c
  | PyStr _ =>
      raise {| exn_cls := AttributeError;
               exn_text := lit "'str' object has no attribute 'content'" |}
  end.

(** [self.extract_code_block(v)]: [re.search] rejects a non-string. *)
Definition extract_code_block_of (v : pyval) : M str :=
  match v with
  | PyStr s => ret (extract_code_block s)
  | AIMessage _ =>
      raise {| exn_cls := TypeError;
               exn_text := lit "expected string or bytes-like object" |}
  end.

(** A callback argument: [None] or a callable, which is called for its
    effect. *)
Inductive callback := Callable.

Section Run.

Variable topic : str.
Variable progress_callback log_callback : option callback.

Definition log_and_progress (message : str) (percent : option Z) : M unit :=
  (match log_callback with
   | Some _ => emit (ELogCallback message)
   | None => ret tt
   end) ;;
  (match progress_callback, percent with
   | Some _, Some p => emit (EProgressCallback p message)
   | _, _ => ret tt
   end) ;;
  logger Info message.

Definition research_chain : chain :=
  {| chain_system :=
       lit "You are a technical research expert. Provide comprehensive insights.";
     chain_human := lit "Research and analyze the technical aspects of: " ++ topic;
     chain_model := ResearchModel;
     chain_str_parser := false |}.

Definition creative_chain (research : str) : chain :=
  {| chain_system :=
       lit "You are a creative technical writer. Develop engaging content.";
     chain_human :=
       lit "Develop a detailed blog post based on this research: " ++ research;
     chain_model := CreativeModel;
     chain_str_parser := false |}.

Definition code_chain : chain :=
  {| chain_system :=
       lit "You are an expert programmer. Generate a practical code example related to the topic.";
     chain_human :=
       lit "Create a Python code example for this topic: " ++ topic
       ++ lit ". Provide a complete, runnable code snippet with comments explaining its purpose and functionality.";
     chain_model := CodeModel;
     chain_str_parser := true |}.

Definition generate_technical_content : M report :=
  (* Stage 1: Research and Topic Exploration *)
  log_and_progress (lit "Starting research phase for topic: " ++ topic) (Some 0%Z) ;;
  blog_structure <- generate_with_retry research_chain EmptyDict ;;
  log_and_progress (lit "Research phase completed") (Some 25%Z) ;;
  (* Stage 2: Creative Content Development *)
  log_and_progress (lit "Starting creative content development") (Some 25%Z) ;;
  research <- get_content blog_structure ;;
  full_blog_content <- generate_with_retry (creative_chain research) EmptyDict ;;
  log_and_progress (lit "Creative content development completed") (Some 50%Z) ;;
  (* Stage 3: Code Example Generation *)
  log_and_progress (lit "Starting code example generation") (Some 50%Z) ;;
  code_example_text <- generate_with_retry code_chain EmptyDict ;;
  log_and_progress (lit "Code example generation completed") (Some 75%Z) ;;
  (* Stage 4: Code Extraction and Formatting *)
  log_and_progress (lit "Extracting and formatting code") (Some 75%Z) ;;
  extracted_code <- extract_code_block_of code_example_text ;;
  formatted_code <- format_code extracted_code (lit "python") ;;
  log_and_progress (lit "Content generation completed") (Some 100%Z) ;;
  structure <- get_content blog_structure ;;
  blog <- get_content full_blog_content ;;
  ret {| blog_structure := structure;
         blog_content := blog;
         code_example_of :=
           {| original := extracted_code;
              formatted := formatted_code;
              language := lit "python";
              explanation := lit "Code example generated for the given topic" |} |}.

End Run.

End Generator.

(* ================================================================== *)
(** ** Observations on traces and on the extractor *)

(** The clients called, in call order. *)
Fixpoint invocations (tr : trace) : list client :=
  match tr with
  | [] => []
  | EInvoke c _ :: tr' => c :: invocations tr'
  | _ :: tr' => invocations tr'
  end.

(** The percentages handed to [progress_callback], in call order. *)
Fixpoint progress_of (tr : trace) : list Z :=
  match tr with
  | [] => []
  | EProgressCallback p _ :: tr' => p :: progress_of tr'
  | _ :: tr' => progress_of tr'
  end.

(** The delays passed to [sleep], in order. *)
Fixpoint sleeps_of (tr : trace) : list Z :=
  match tr with
  | [] => []
  | ESleep d :: tr' => d :: sleeps_of tr'
  | _ :: tr' => sleeps_of tr'
  end.

(** How many times [c] was called. *)
Definition calls_to (c : client) (tr : trace) : nat :=
  List.length (filter (client_eqb c) (invocations tr)).

(** The span captured by the first delimiter heuristic that matches:
    the fenced block if there is one, else the [<code>] block. *)
Definition first_capture (model_output : str) : option str :=
  match Re.search fenced_pattern model_output with
  | Some g => Some g
  | None => Re.search marker_pattern model_output
  end.

(** No triple backtick begins inside [s], not even one that the fence
    following [s] would complete. *)
Fixpoint fence_free (s : str) : bool :=
  match s with
  | [] => true
  | _ :: s' => negb (startswith (s ++ fence) fence) && fence_free s'
  end.

(** An opening fence at the head of [s]: a triple backtick followed
    directly by a newline, or by the tag [python] and a newline.  The
    result is the text behind it. *)
Definition opening_fence (s : str) : option str :=
  match strip_prefix (fence ++ nl) s with
  | Some r => Some r
  | None => strip_prefix (fence ++ lit "python" ++ nl) s
  end.

(** The text of [s] before the first place where [close] begins. *)
Fixpoint text_before (close s : str) : option str :=
  match strip_prefix close s with
  | Some _ => Some []
  | None =>
      match s with
      | [] => None
      | c :: s' =>
          match text_before close s' with
          | Some g => Some (c :: g)
          | None => None
          end
      end
  end.

(** The first heuristic as its description words it: go to the leftmost
    opening fence; the block is the shortest span from there up to the
    next triple backtick, and there is none without such a backtick. *)
Fixpoint leftmost_fenced_block (s : str) : option str :=
  match opening_fence s with
  | Some r => text_before fence r
  | None =>
      match s with
      | [] => None
      | _ :: s' => leftmost_fenced_block s'
      end
  end.

(** No opening fence begins inside [pre] when [rest] follows it. *)
Fixpoint no_opening_fence (pre rest : str) : bool :=
  match pre with
  | [] => true
  | _ :: pre' =>
      match opening_fence (pre ++ rest) with
      | Some _ => false
      | None => no_opening_fence pre' rest
      end
  end.

(** The delay formula as the specification writes it. *)
Definition spec_backoff (backoff_base backoff_min backoff_max : Z) (i : nat) : Z :=
  Z.min backoff_max (Z.max backoff_min (backoff_base * 2 ^ Z.of_nat i)).

(** A list of percentages that never goes down. *)
Fixpoint nondecreasing (l : list Z) : bool :=
  match l with
  | [] => true
  | x :: l' =>
      match l' with
      | [] => true
      | y :: _ => (x <=? y)%Z && nondecreasing l'
      end
  end.

(** Repeated neighbours merged into one. *)
Fixpoint distinct_runs (l : list Z) : list Z :=
  match l with
  | [] => []
  | x :: l' =>
      match l' with
      | [] => [x]
      | y :: _ => if (x =? y)%Z then distinct_runs l' else x :: distinct_runs l'
      end
  end.

(** The percentages of a complete run, as the code emits them. *)
Definition full_progress : list Z := [0; 25; 25; 50; 50; 75; 75; 100]%Z.

(** What one call of [log_and_progress] appends to the trace. *)
Definition say_events (progress_callback log_callback : option callback)
           (message : str) (percent : option Z) : trace :=
  (match log_callback with Some _ => [ELogCallback message] | None => [] end)
  ++ (match progress_callback, percent with
      | Some _, Some p => [EProgressCallback p message]
      | _, _ => []
      end)
  ++ [ELogger Info message].

(** The percentages [l] if a progress callback was given, else none. *)
Definition shown (progress_callback : option callback) (l : list Z) : list Z :=
  match progress_callback with Some _ => l | None => [] end.

(** Events that [generate_with_retry] on a chain over [primary] and
    [format_code] may add: calls of [primary] or of the backup model,
    sleeps, log lines, formatter runs; never a callback. *)
Definition internal (primary : client) (ev : event) : Prop :=
  match ev with
  | EInvoke c _ => c = primary \/ c = BackupModel
  | ELogCallback _ | EProgressCallback _ _ => False
  | _ => True
  end.

(** A computation that only appends events satisfying [P]. *)
Definition appends {A} (P : event -> Prop) (c : M A) : Prop :=
  forall tr, exists ext, snd (c tr) = tr ++ ext /\ Forall P ext.

Section Stages.

Variable env : Env.
Variable topic : str.
Variable progress_callback log_callback : option callback.

(** [generate_technical_content] cut after each model call: a stage
    runs up to and including its call of [generate_with_retry]; the
    last one extracts, formats and assembles the result. *)
Definition research_stage : M pyval :=
  log_and_progress progress_callback log_callback
    (lit "Starting research phase for topic: " ++ topic) (Some 0%Z) ;;
  generate_with_retry env (research_chain topic) EmptyDict.

Definition draft_stage (blog_structure : pyval) : M pyval :=
  log_and_progress progress_callback log_callback
    (lit "Research phase completed") (Some 25%Z) ;;
  log_and_progress progress_callback log_callback
    (lit "Starting creative content development") (Some 25%Z) ;;
  research <- get_content blog_structure ;;
  generate_with_retry env (creative_chain research) EmptyDict.

Definition code_stage : M pyval :=
  log_and_progress progress_callback log_callback
    (lit "Creative content development completed") (Some 50%Z) ;;
  log_and_progress progress_callback log_callback
    (lit "Starting code example generation") (Some 50%Z) ;;
  generate_with_retry env (code_chain topic) EmptyDict.

Definition final_stage (blog_structure full_blog_content code_example_text : pyval)
  : M report :=
  log_and_progress progress_callback log_callback
    (lit "Code example generation completed") (Some 75%Z) ;;
  log_and_progress progress_callback log_callback
    (lit "Extracting and formatting code") (Some 75%Z) ;;
  extracted_code <- extract_code_block_of code_example_text ;;
  formatted_code <- format_code env extracted_code (lit "python") ;;
  log_and_progress progress_callback log_callback
    (lit "Content generation completed") (Some 100%Z) ;;
  structure <- get_content blog_structure ;;
  blog <- get_content full_blog_content ;;
  ret {| blog_structure := structure;
         blog_content := blog;
         code_example_of :=
           {| original := extracted_code;
              formatted := formatted_code;
              language := lit "python";
              explanation := lit "Code example generated for the given topic" |} |}.

End Stages.

(** *** Concrete worlds *)

(** [str.lower] on ASCII text. *)
Definition ascii_lower (s : str) : str :=
  map (fun c => if ((65 <=? c) && (c <=? 90))%N then (c + 32)%N else c) s.

Definition exn_of (c : exn_class) (text : string) : exn :=
  {| exn_cls := c; exn_text := lit text |}.

(** Formatters that reject everything the way [black] rejects text it
    cannot parse. *)
Definition rejecting_black (code : str) : result str :=
  Raise (exn_of OtherException "Cannot parse").

Definition identity_formatter (code : str) : result str := Ok code.

(** Every model is rate limited on every call. *)
Definition rate_limited_env : Env :=
  {| reply := fun _ _ _ => Raise (exn_of RateLimitError "rate limited");
     black_format_str := identity_formatter;
     isort_code := identity_formatter;
     lower := ascii_lower |}.

(** The research model fails with an error of another package (the
    OpenAI client's authentication error); the creative model with
    anthropic's authentication error. *)
Definition auth_failing_env : Env :=
  {| reply := fun _ c _ =>
       match c with
       | ResearchModel => Raise (exn_of OtherException "invalid api key")
       | _ => Raise (exn_of AuthenticationError "invalid x-api-key")
       end;
     black_format_str := identity_formatter;
     isort_code := identity_formatter;
     lower := ascii_lower |}.

(** The primary fails, the backup answers. *)
Definition backup_answers_env : Env :=
  {| reply := fun _ c _ =>
       match c with
       | BackupModel => Ok (lit "B")
       | _ => Raise (exn_of RateLimitError "rate limited")
       end;
     black_format_str := identity_formatter;
     isort_code := identity_formatter;
     lower := ascii_lower |}.

(** The end-to-end example of the specification: research answers
    ["R"], the draft model ["D using R"], the code model a fenced
    [print(1)]. *)
Definition happy_env : Env :=
  {| reply := fun _ c _ =>
       match c with
       | ResearchModel => Ok (lit "R")
       | CreativeModel => Ok (lit "D using R")
       | CodeModel => Ok (lit "```python" ++ nl ++ lit "print(1)" ++ nl ++ lit "```")
       | BackupModel => Raise (exn_of OtherException "unused")
       end;
     black_format_str := identity_formatter;
     isort_code := identity_formatter;
     lower := ascii_lower |}.

(** Research answers, the draft model and the backup are down. *)
Definition draft_failing_env : Env :=
  {| reply := fun _ c _ =>
       match c with
       | ResearchModel => Ok (lit "R")
       | CreativeModel => Raise (exn_of APIError "overloaded")
       | BackupModel => Raise (exn_of OtherException "quota exceeded")
       | CodeModel => Ok (lit "print(1)")
       end;
     black_format_str := identity_formatter;
     isort_code := identity_formatter;
     lower := ascii_lower |}.

(** A world whose [black] rejects its input. *)
Definition bad_syntax_env : Env :=
  {| reply := fun _ _ _ => Ok (lit "x");
     black_format_str := rejecting_black;
     isort_code := identity_formatter;
     lower := ascii_lower |}.

Unset Implicit Arguments.

(* ================================================================== *)
(** ** Further observations on text and traces *)

(** [needle in s] *)
Fixpoint contains (needle s : str) : bool :=
  startswith s needle
  || match s with
     | [] => false
     | _ :: s' => contains needle s'
     end.

(** No occurrence of [needle] begins inside [s], not even one that a
    [needle] placed right after [s] would complete. *)
Fixpoint free_of (needle s : str) : bool :=
  match s with
  | [] => true
  | _ :: s' => negb (startswith (s ++ needle) needle) && free_of needle s'
  end.

(** [a] is a contiguous part of [s]. *)
Definition part_of (a s : str) : Prop := exists pre post, s = pre ++ a ++ post.

(** The inputs the models were called with, in call order. *)
Fixpoint calls_of (tr : trace) : list (client * model_input) :=
  match tr with
  | [] => []
  | EInvoke c i :: tr' => (c, i) :: calls_of tr'
  | _ :: tr' => calls_of tr'
  end.

(** The messages given to [log_callback], to [progress_callback] and to
    [logger.info], each in call order. *)
Fixpoint log_callback_messages (tr : trace) : list str :=
  match tr with
  | [] => []
  | ELogCallback m :: tr' => m :: log_callback_messages tr'
  | _ :: tr' => log_callback_messages tr'
  end.

Fixpoint progress_messages (tr : trace) : list str :=
  match tr with
  | [] => []
  | EProgressCallback _ m :: tr' => m :: progress_messages tr'
  | _ :: tr' => progress_messages tr'
  end.

Fixpoint info_messages (tr : trace) : list str :=
  match tr with
  | [] => []
  | ELogger Info m :: tr' => m :: info_messages tr'
  | _ :: tr' => info_messages tr'
  end.

(** The callback events of a trace, in order. *)
Fixpoint callback_events (tr : trace) : trace :=
  match tr with
  | [] => []
  | ELogCallback m :: tr' => ELogCallback m :: callback_events tr'
  | EProgressCallback p m :: tr' => EProgressCallback p m :: callback_events tr'
  | _ :: tr' => callback_events tr'
  end.

(** Events of one [generate_with_retry] on [model] with [prompt]: the
    primary is called with the chain's messages, the backup with
    [prompt]; besides that only sleeps and warning or error lines. *)
Definition retry_event (model : chain) (prompt : model_input) (ev : event) : Prop :=
  match ev with
  | EInvoke c i =>
      (c = chain_model model /\ i = chain_messages model)
      \/ (c = BackupModel /\ i = prompt)
  | ESleep _ | ELogger Warning _ | ELogger Error _ => True
  | _ => False
  end.

(** Events of [format_code]: formatter runs and an error line. *)
Definition format_event (ev : event) : Prop :=
  match ev with
  | EBlack _ | EIsort _ | ELogger Error _ => True
  | _ => False
  end.

(** A model that fails with a timeout on its first [failures] calls and
    answers ["R"] from then on. *)
Definition flaky_env (failures : nat) : Env :=
  {| reply := fun tr c _ =>
       if calls_to c tr <? failures
       then Raise (exn_of OtherException "timeout")
       else Ok (lit "R");
     black_format_str := identity_formatter;
     isort_code := identity_formatter;
     lower := ascii_lower |}.

(** The user interrupts the first call. *)
Definition interrupted_env : Env :=
  {| reply := fun _ _ _ => Raise (exn_of NonException "KeyboardInterrupt");
     black_format_str := identity_formatter;
     isort_code := identity_formatter;
     lower := ascii_lower |}.

(** What one [generate_with_retry] on [model] adds to the trace: its
    events, and the count of attempts behind them. *)
Definition retry_extension (model : chain) (prompt : model_input) (ext : trace)
  : Prop :=
  Forall (retry_event model prompt) ext
  /\ exists attempts,
      1 <= attempts <= 3
      /\ calls_to (chain_model model) ext = attempts
      /\ calls_to BackupModel ext <= attempts
      /\ sleeps_of ext = repeat 4%Z (attempts - 1).

(** The eight messages of a complete run, in order. *)
Definition pipeline_messages (topic : str) : list str :=
  [lit "Starting research phase for topic: " ++ topic;
   lit "Research phase completed";
   lit "Starting creative content development";
   lit "Creative content development completed";
   lit "Starting code example generation";
   lit "Code example generation completed";
   lit "Extracting and formatting code";
   lit "Content generation completed"].

(** Each message with the percentage it is reported at. *)
Definition pipeline_points (topic : str) : list (str * Z) :=
  combine (pipeline_messages topic) full_progress.

(** What the calls of [log_and_progress] for [points] append. *)
Definition said (progress_callback log_callback : option callback)
           (points : list (str * Z)) : trace :=
  flat_map (fun mp => say_events progress_callback log_callback
                        (fst mp) (Some (snd mp))) points.

(** The messages [l] if the callback was given, else none. *)
Definition heard {C : Type} (cb : option C) (l : list str) : list str :=
  match cb with Some _ => l | None => [] end.

(** Events other than callbacks and info lines. *)
Definition silent_event (ev : event) : Prop :=
  match ev with
  | ELogCallback _ | EProgressCallback _ _ | ELogger Info _ => False
  | _ => True
  end.

(** A reading of the trace that goes event by event and sees only
    callbacks and info lines. *)
Definition observation {X : Type} (f : trace -> list X) : Prop :=
  (forall a b, f (a ++ b) = f a ++ f b)
  /\ (forall ev, silent_event ev -> f [ev] = []).

(* ================================================================== *)
(** ** Callbacks that may raise *)

(** [generate_technical_content] calls whatever the caller passes as
    [progress_callback] and [log_callback], and has no [try] around the
    calls.  Above, a supplied callback returns, as the two closures of
    [main] do.  Here a callback is any callable: its call returns or
    raises, which may depend on all that happened before. *)
Module Sinks.

(** [log_callback(message)] *)
Definition log_sink := trace -> str -> result unit.

(** [progress_callback(percent, message)] *)
Definition progress_sink := trace -> Z -> str -> result unit.

Section Run.

Variable env : Env.
Variable topic : str.
Variable progress_callback : option progress_sink.
Variable log_callback : option log_sink.

(** A call of a callback: the callback has received its arguments
    whether it returns or raises. *)
Definition call_log (f : log_sink) (message : str) : M unit :=
  fun tr => (f tr message, tr ++ [ELogCallback message]).

Definition call_progress (f : progress_sink) (percent : Z) (message : str)
  : M unit :=
  fun tr => (f tr percent message, tr ++ [EProgressCallback percent message]).

Definition log_and_progress (message : str) (percent : option Z) : M unit :=
  (match log_callback with
   | Some f => call_log f message
   | None => ret tt
   end) ;;
  (match progress_callback, percent with
   | Some f, Some p => call_progress f p message
   | _, _ => ret tt
   end) ;;
  logger Info message.

Definition generate_technical_content : M report :=
  (* Stage 1: Research and Topic Exploration *)
  log_and_progress (lit "Starting research phase for topic: " ++ topic) (Some 0%Z) ;;
  blog_structure <- generate_with_retry env (research_chain topic) EmptyDict ;;
  log_and_progress (lit "Research phase completed") (Some 25%Z) ;;
  (* Stage 2: Creative Content Development *)
  log_and_progress (lit "Starting creative content development") (Some 25%Z) ;;
  research <- get_content blog_structure ;;
  full_blog_content <- generate_with_retry env (creative_chain research) EmptyDict ;;
  log_and_progress (lit "Creative content development completed") (Some 50%Z) ;;
  (* Stage 3: Code Example Generation *)
  log_and_progress (lit "Starting code example generation") (Some 50%Z) ;;
  code_example_text <- generate_with_retry env (code_chain topic) EmptyDict ;;
  log_and_progress (lit "Code example generation completed") (Some 75%Z) ;;
  (* Stage 4: Code Extraction and Formatting *)
  log_and_progress (lit "Extracting and formatting code") (Some 75%Z) ;;
  extracted_code <- extract_code_block_of code_example_text ;;
  formatted_code <- format_code env extracted_code (lit "python") ;;
  log_and_progress (lit "Content generation completed") (Some 100%Z) ;;
  structure <- get_content blog_structure ;;
  blog <- get_content full_blog_content ;;
  ret {| blog_structure := structure;
         blog_content := blog;
         code_example_of :=
           {| original := extracted_code;
              formatted := formatted_code;
              language := lit "python";
              explanation := lit "Code example generated for the given topic" |} |}.



(** The three sinks after [k] complete calls of [log_and_progress]. *)
Definition level (k : nat) (tr : trace) : Prop :=
  info_messages tr = firstn k (pipeline_messages topic)
  /\ log_callback_messages tr = heard log_callback (info_messages tr)
  /\ progress_messages tr = heard progress_callback (info_messages tr).



End Run.




(** The callable that does nothing, where one was supplied. *)
Definition returning_log (cb : option callback) : option log_sink :=
  match cb with
  | Some _ => Some (fun _ _ => Ok tt)
  | None => None
  end.

Definition returning_progress (cb : option callback) : option progress_sink :=
  match cb with
  | Some _ => Some (fun _ _ _ => Ok tt)
  | None => None
  end.



End Sinks.

(* ================================================================== *)
(** ** main: the Streamlit page of interactive_content_generator.py *)

Module App.

(** The two placeholders made with [st.empty()]. *)
Inductive slot := LogContainer | StatusText.

(** What the script puts on the page, and its one [logger.error]. *)
Inductive widget :=
| StSetPageConfig (page_title page_icon : str)
| StTitle (s : str)
| LoadDotenv
| StEmpty (sl : slot)
| SlotText (sl : slot) (s : str)
| StTextInput (label placeholder : str)
| StProgress (percent : Z)
| StButton (label : str)
| StError (s : str)
| StSubheader (s : str)
| StWrite (s : str)
| StCode (code language : str)
| StColumns (n : nat)
| StDownloadButton (label data file_name mime : str)
| LoggerError (s : str).

(** The page so far and the local list [log_messages]. *)
Record page := {
  log_messages : list str;
  screen : list widget
}.

Definition show (w : widget) (pg : page) : page :=
  {| log_messages := log_messages pg; screen := screen pg ++ [w] |}.

(** [sep.join(l)] *)
Fixpoint join (sep : str) (l : list str) : str :=
  match l with
  | [] => []
  | x :: l' =>
      match l' with
      | [] => x
      | _ :: _ => x ++ sep ++ join sep l'
      end
  end.

(** [update_log]: append, drop the oldest line beyond ten, redraw. *)
Definition update_log (message : str) (pg : page) : page :=
  let appended := log_messages pg ++ [message] in
  let kept := if 10 <? List.length appended then tl appended else appended in
  {| log_messages := kept;
     screen := screen pg ++ [SlotText LogContainer (join nl kept)] |}.

(** [update_progress] *)
Definition update_progress (percent : Z) (message : str) (pg : page) : page :=
  update_log message
    (show (SlotText StatusText message) (show (StProgress percent) pg)).

(** The two closures are the callbacks of the run: they are applied in
    the order of the callback events of the trace.  They do not raise
    (every percentage passed is between 0 and 100) and the run does not
    read the page. *)
Fixpoint replay (tr : trace) (pg : page) : page :=
  match tr with
  | [] => pg
  | ELogCallback m :: tr' => replay tr' (update_log m pg)
  | EProgressCallback p m :: tr' => replay tr' (update_progress p m pg)
  | _ :: tr' => replay tr' pg
  end.

(** [topic.replace(' ', '_')] *)
Definition replace_spaces (topic : str) : str :=
  map (fun c => if (c =? 32)%N then 95%N else c) topic.

(** The page before the button is looked at. *)
Definition first_page : page :=
  {| log_messages := [];
     screen :=
       [StSetPageConfig (lit "AI Content Generator") [63743; 252; 167; 241]%N;
        StTitle ([63743; 252; 246; 196]%N
                 ++ lit " AI-Powered Technical Content Generator");
        LoadDotenv;
        StEmpty LogContainer;
        StTextInput (lit "Enter a technical topic for content generation")
          (lit "e.g., Building a Real-Time Collaborative AI Assistant");
        StProgress 0;
        StEmpty StatusText;
        StButton (lit "Generate Content")] |}.

(** What is shown once a result is there. *)
Definition result_widgets (topic : str) (result : report) : list widget :=
  [StSubheader ([63743; 252; 236; 249]%N ++ lit " Generated Blog Post");
   StWrite (blog_content result);
   StSubheader ([63743; 252; 237; 170]%N ++ lit " Code Example");
   StCode (formatted (code_example_of result)) (lit "python");
   StColumns 2;
   StDownloadButton (lit "Download Blog Post") (blog_content result)
     (replace_spaces topic ++ lit "_blog_post.md") (lit "text/markdown");
   StDownloadButton (lit "Download Code Example")
     (formatted (code_example_of result))
     (replace_spaces topic ++ lit "_code_example.py") (lit "text/python")].

(** One run of the script.  [topic] is what the text input holds,
    [clicked] whether the button was pressed, [init] how the
    constructor [TechContentGenerator()] ends.  The result is how the
    script ends, the page, and the trace of the generator. *)
Definition main (env : Env) (init : result unit) (topic : str) (clicked : bool)
  : result unit * page * trace :=
  if clicked then
    match topic with
    | [] => (Ok tt, show (StError (lit "Please enter a topic")) first_page, [])
    | _ :: _ =>
        match init with
        | Raise e => (Raise e, first_page, [])
        | Ok _ =>
            match generate_technical_content env topic
                    (Some Callable) (Some Callable) [] with
            | (Ok result, tr) =>
                (Ok tt,
                 fold_left (fun pg w => show w pg) (result_widgets topic result)
                   (replay tr first_page),
                 tr)
            | (Raise e, tr) =>
                if is_Exception e then
                  (Ok tt,
                   update_log (lit "Error: " ++ exn_text e)
                     (show (LoggerError (lit "Content generation error: "
                                         ++ exn_text e))
                        (show (StError (lit "An error occurred: " ++ exn_text e))
                           (replay tr first_page))),
                   tr)
                else (Raise e, replay tr first_page, tr)
            end
        end
    end
  else (Ok tt, first_page, []).

(** The last [n] elements. *)
Definition lastn {A} (n : nat) (l : list A) : list A :=
  skipn (List.length l - n) l.

(** Each message twice. *)
Definition twice (l : list str) : list str := flat_map (fun m => [m; m]) l.

(** Widgets that show a result. *)
Definition shows_result (w : widget) : bool :=
  match w with
  | StWrite _ | StCode _ _ | StDownloadButton _ _ _ _ | StSubheader _ => true
  | _ => false
  end.

End App.

(* ================================================================== *)
(** ** The stand-alone scripts *)

(** The scripts call models and print; they run in the same kind of
    monad over their own events. *)
Module Script.

Definition St (E A : Type) := list E -> result A * list E.

Definition sret {E A} (a : A) : St E A := fun tr => (Ok a, tr).

Definition sbind {E A B} (c : St E A) (k : A -> St E B) : St E B :=
  fun tr =>
    match c tr with
    | (Ok a, tr') => k a tr'
    | (Raise e, tr') => (Raise e, tr')
    end.

Definition sraise {E A} (e : exn) : St E A := fun tr => (Raise e, tr).

Definition scatch {E A} (c : St E A) (h : exn -> St E A) : St E A :=
  fun tr =>
    match c tr with
    | (Ok a, tr') => (Ok a, tr')
    | (Raise e, tr') => h e tr'
    end.

Definition semit {E} (ev : E) : St E unit := fun tr => (Ok tt, tr ++ [ev]).

(** An outside operation whose outcome the world decides. *)
Definition sask {E A} (answer : list E -> result A) (ev : E) : St E A :=
  fun tr => (answer tr, tr ++ [ev]).

End Script.

Notation "x <~ c ;; k" := (Script.sbind c (fun x => k))
  (at level 61, c at next level, right associativity).
Notation "c ;;; k" := (Script.sbind c (fun _ => k))
  (at level 61, right associativity).

(* ------------------------------------------------------------------ *)
(** *** advanced_collaborative_agents.py *)

Module Agents.
Import Script.

(** The three models of [MultiModelCollaborativeAgent]. *)
Inductive model := research_model | creative_model | analytical_model.

Inductive ev :=
| Call (m : model) (i : model_input)
| Print (s : str).

(** How the models answer: the content of the message returned, or an
    exception. *)
Definition world := list ev -> model -> model_input -> result str.

(** [(prompt | model).invoke({}).content] *)
Definition invoke (w : world) (m : model) (i : model_input) : St ev str :=
  sask (fun tr => w tr m i) (Call m i).

Definition print (s : str) : St ev unit := semit (Print s).

Definition research_system : str :=
  nl ++ lit "            You are a meticulous research assistant. " ++ nl
  ++ lit "            Your task is to gather comprehensive information about the given problem."
  ++ nl
  ++ lit "            Provide a detailed, objective analysis with key insights and background context."
  ++ nl ++ lit "            ".

Definition creative_system : str :=
  nl ++ lit "            You are a highly creative problem solver. " ++ nl
  ++ lit "            Using the research insights, generate innovative and unconventional solutions."
  ++ nl
  ++ lit "            Think outside the box and propose approaches that others might overlook."
  ++ nl ++ lit "            ".

Definition analytical_system : str :=
  nl ++ lit "            You are a critical and analytical problem solver." ++ nl
  ++ lit "            Evaluate the proposed creative solutions rigorously." ++ nl
  ++ lit "            Assess feasibility, potential challenges, and provide constructive recommendations."
  ++ nl ++ lit "            ".

Definition synthesis_system : str :=
  nl
  ++ lit "            You are a synthesizer who integrates insights from research, creativity, and analysis."
  ++ nl
  ++ lit "            Combine the best elements from each phase into a comprehensive, actionable strategy."
  ++ nl ++ lit "            ".

Definition research_prompt (initial_problem : str) : model_input :=
  ChatMessages research_system
    (lit "Research and analyze the following problem in depth: " ++ initial_problem).

Definition creative_prompt (research_output : str) : model_input :=
  ChatMessages creative_system
    (lit "Generate creative solutions based on this research: " ++ research_output).

Definition analytical_prompt (creative_output : str) : model_input :=
  ChatMessages analytical_system
    (lit "Critically analyze these creative solutions: " ++ creative_output).

Definition synthesis_prompt (research_output creative_output analytical_output : str)
  : model_input :=
  ChatMessages synthesis_system
    (nl ++ lit "            Synthesize a final strategy using these inputs:" ++ nl
     ++ lit "            Research Phase: " ++ research_output ++ nl
     ++ lit "            Creative Solutions: " ++ creative_output ++ nl
     ++ lit "            Analytical Evaluation: " ++ analytical_output ++ nl
     ++ lit "            ").

(** The returned dictionary. *)
Record strategy := {
  research : str;
  creative_solutions : str;
  analytical_evaluation : str;
  final_strategy : str
}.

Definition collaborative_problem_solving (w : world) (initial_problem : str)
  : St ev strategy :=
  (* Stage 1: Research and Information Gathering *)
  research_output <~ invoke w research_model (research_prompt initial_problem) ;;
  print ([128300%N] ++ lit " Research Phase Output:") ;;;
  print research_output ;;;
  print (nl ++ lit "--- Next Phase ---" ++ nl) ;;;
  (* Stage 2: Creative Solution Generation *)
  creative_output <~ invoke w creative_model (creative_prompt research_output) ;;
  print ([128161%N] ++ lit " Creative Solutions Phase:") ;;;
  print creative_output ;;;
  print (nl ++ lit "--- Next Phase ---" ++ nl) ;;;
  (* Stage 3: Analytical Evaluation and Refinement *)
  analytical_output <~ invoke w analytical_model (analytical_prompt creative_output) ;;
  print ([128202%N] ++ lit " Analytical Evaluation Phase:") ;;;
  print analytical_output ;;;
  (* Final Synthesis *)
  final <~ invoke w creative_model
             (synthesis_prompt research_output creative_output analytical_output) ;;
  print (nl ++ [127775%N] ++ lit " Final Collaborative Strategy:") ;;;
  print final ;;;
  sret {| research := research_output;
          creative_solutions := creative_output;
          analytical_evaluation := analytical_output;
          final_strategy := final |}.

(** The model calls of a trace, in order. *)
Fixpoint calls (tr : list ev) : list (model * model_input) :=
  match tr with
  | [] => []
  | Call m i :: tr' => (m, i) :: calls tr'
  | Print _ :: tr' => calls tr'
  end.

(** The four calls behind a returned dictionary. *)
Definition calls_behind (initial_problem : str) (d : strategy)
  : list (model * model_input) :=
  [(research_model, research_prompt initial_problem);
   (creative_model, creative_prompt (research d));
   (analytical_model, analytical_prompt (creative_solutions d));
   (creative_model,
    synthesis_prompt (research d) (creative_solutions d) (analytical_evaluation d))].

(** A world that answers each model by name. *)
Definition echo_world : world :=
  fun _ m _ =>
    match m with
    | research_model => Ok (lit "facts")
    | creative_model => Ok (lit "ideas")
    | analytical_model => Ok (lit "review")
    end.

(** A world whose analytical model is down. *)
Definition broken_world : world :=
  fun _ m _ =>
    match m with
    | analytical_model => Raise (exn_of OtherException "timeout")
    | _ => Ok (lit "text")
    end.

End Agents.

(* ------------------------------------------------------------------ *)
(** *** content_code_collaboration.py *)

Module ContentCode.
Import Script.

(** The three models of this [TechContentGenerator]. *)
Inductive model := research_model | creative_model | code_model.

Inductive ev :=
| Call (m : model) (i : model_input)
| Print (s : str)
| Black (code : str)
| Isort (code : str)
| MakeDirs (path : str)
| WriteFile (path data : str).

(** The outside: how the models answer, what [print] shows for a
    message object, the two formatters, [str.lower], how the
    constructor ends and how a file operation ends. *)
Record world := {
  answer : list ev -> model -> model_input -> result str;
  message_str : str -> str;
  black_format_str : str -> result str;
  isort_code : str -> result str;
  lower : str -> str;
  init : result unit;
  file_op : list ev -> result unit
}.

Section Generator.

Variable w : world.

(** [(prompt | model).invoke(...)]: the content of the [AIMessage]
    returned.  None of the chains ends in an output parser, so what
    they return is always a chat message. *)
Definition invoke (m : model) (i : model_input) : St ev str :=
  sask (fun tr => answer w tr m i) (Call m i).

Definition print (s : str) : St ev unit := semit (Print s).

(** Reading an attribute that a chat message does not have.  An
    [AIMessage] carries [content] and metadata, and no field named
    [code], [language] or [explanation]. *)
Definition missing_attribute (name : str) : St ev str :=
  sraise {| exn_cls := AttributeError;
            exn_text := lit "'AIMessage' object has no attribute '"
                        ++ name ++ lit "'" |}.

(** The nested [format_code] of this file: it prints the error. *)
Definition format_code (code language : str) : St ev str :=
  scatch
    (if str_eqb (lower w language) (lit "python") then
       formatted_code <~ sask (fun _ => black_format_str w code) (Black code) ;;
       formatted_code <~ sask (fun _ => isort_code w formatted_code)
                           (Isort formatted_code) ;;
       sret formatted_code
     else sret code)
    (fun e =>
       if is_Exception e then
         print (lit "Code formatting error: " ++ exn_text e) ;;;
         sret code
       else sraise e).

Definition generate_technical_content (topic : str) : St ev report :=
  (* Stage 1: Research and Topic Exploration *)
  blog_structure <~ invoke research_model
      (ChatMessages
         (lit "You are a technical research expert. Provide comprehensive insights.")
         (lit "Research and analyze the technical aspects of: " ++ topic)) ;;
  print ([128300%N] ++ lit " Blog Post Structure:") ;;;
  print blog_structure ;;;
  (* Stage 2: Creative Content Development *)
  full_blog_content <~ invoke creative_model
      (ChatMessages
         (lit "You are a creative technical writer. Develop engaging content.")
         (lit "Develop a detailed blog post based on this research: "
          ++ blog_structure)) ;;
  print (nl ++ [9997%N] ++ [65039%N] ++ lit " Blog Content:") ;;;
  print full_blog_content ;;;
  (* Stage 3: Code Example Generation *)
  code_example <~ invoke code_model
      (ChatMessages
         (lit "You are an expert programmer. Generate a practical code example.")
         (lit "Create a code example related to this blog content: "
          ++ full_blog_content)) ;;
  print (nl ++ [128187%N] ++ lit " Code Example:") ;;;
  print (message_str w code_example) ;;;
  (* Stage 4: Code Formatting and Optimization *)
  code <~ missing_attribute (lit "code") ;;
  formatted_code <~ format_code code (lit "python") ;;
  print (nl ++ [129529%N] ++ lit " Formatted Code:") ;;;
  print formatted_code ;;;
  original_code <~ missing_attribute (lit "code") ;;
  code_language <~ missing_attribute (lit "language") ;;
  code_explanation <~ missing_attribute (lit "explanation") ;;
  sret {| blog_structure := blog_structure;
          blog_content := full_blog_content;
          code_example_of :=
            {| original := original_code;
               formatted := formatted_code;
               language := code_language;
               explanation := code_explanation |} |}.

(** [main] *)
Definition main : St ev unit :=
  _ <~ (fun tr => (init w, tr)) ;;
  result <~ generate_technical_content
              (lit "Building a Real-Time Collaborative AI Assistant") ;;
  sask (file_op w) (MakeDirs (lit "outputs")) ;;;
  sask (file_op w) (WriteFile (lit "outputs/blog_post.md") (blog_content result)) ;;;
  sask (file_op w)
    (WriteFile (lit "outputs/code_example.py")
       (formatted (code_example_of result))).

End Generator.

(** The model calls of a trace, in order. *)
Fixpoint calls (tr : list ev) : list model :=
  match tr with
  | [] => []
  | Call m _ :: tr' => m :: calls tr'
  | _ :: tr' => calls tr'
  end.

(** Events that touch the file system or run a formatter. *)
Definition after_attribute (e : ev) : bool :=
  match e with
  | Black _ | Isort _ | MakeDirs _ | WriteFile _ _ => true
  | _ => false
  end.

(** A world in which everything works. *)
Definition working_world : world :=
  {| answer := fun _ _ _ => Ok (lit "text");
     message_str := fun content => lit "content='" ++ content ++ lit "'";
     black_format_str := fun code => Ok code;
     isort_code := fun code => Ok code;
     lower := ascii_lower;
     init := Ok tt;
     file_op := fun _ => Ok tt |}.

End ContentCode.

(* ------------------------------------------------------------------ *)
(** *** multi_model_example.py *)

Module MultiModel.
Import Script.

Inductive provider := OpenAI | HuggingFace | Claude.

Inductive ev :=
| Import
| Build (p : provider)
| Invoke (p : provider) (prompt : str)
| Print (s : str).

(** The outside: whether [from transformers import pipeline] works,
    how building each model ends, what each model answers, and which
    exceptions are [ImportError]s. *)
Record world := {
  import_pipeline : result unit;
  build : provider -> result unit;
  complete : provider -> str -> result str;
  import_error : exn -> bool
}.

Section Examples.

Variable w : world.

Definition print (s : str) : St ev unit := semit (Print s).

(** [isinstance(e, ImportError)]; an [ImportError] is an [Exception]. *)
Definition is_ImportError (e : exn) : bool := import_error w e && is_Exception e.

Definition openai_example : St ev (option str) :=
  scatch
    (sask (fun _ => build w OpenAI) (Build OpenAI) ;;;
     text <~ sask (fun _ => complete w OpenAI
                     (lit "Explain artificial intelligence in a way a 5-year-old would understand."))
               (Invoke OpenAI
                  (lit "Explain artificial intelligence in a way a 5-year-old would understand.")) ;;
     sret (Some text))
    (fun e =>
       if is_Exception e then
         print (lit "OpenAI example failed: " ++ exn_text e) ;;; sret None
       else sraise e).

Definition huggingface_example : St ev (option str) :=
  scatch
    (sask (fun _ => import_pipeline w) Import ;;;
     sask (fun _ => build w HuggingFace) (Build HuggingFace) ;;;
     text <~ sask (fun _ => complete w HuggingFace
                     (lit "Given the context of In a world where robots and humans coexist peacefully, continue the story in an imaginative way."))
               (Invoke HuggingFace
                  (lit "Given the context of In a world where robots and humans coexist peacefully, continue the story in an imaginative way.")) ;;
     sret (Some text))
    (fun e =>
       if is_ImportError e then
         print (lit "Hugging Face example requires PyTorch or TensorFlow. Install using: pip install torch transformers") ;;;
         sret None
       else if is_Exception e then
         print (lit "Hugging Face example failed: " ++ exn_text e) ;;; sret None
       else sraise e).

Definition claude_example : St ev (option str) :=
  scatch
    (sask (fun _ => build w Claude) (Build Claude) ;;;
     text <~ sask (fun _ => complete w Claude
                     (lit "Provide a detailed strategy for reducing plastic waste in oceans."))
               (Invoke Claude
                  (lit "Provide a detailed strategy for reducing plastic waste in oceans.")) ;;
     sret (Some text))
    (fun e =>
       if is_Exception e then
         print (lit "Claude example failed: " ++ exn_text e) ;;; sret None
       else sraise e).

(** [x or "No result"] *)
Definition or_no_result (x : option str) : str :=
  match x with
  | Some (c :: s) => c :: s
  | Some [] | None => lit "No result"
  end.

Definition main : St ev unit :=
  print (lit "OpenAI Example:") ;;;
  openai_result <~ openai_example ;;
  print (or_no_result openai_result) ;;;
  print (nl ++ lit "Hugging Face Example:") ;;;
  huggingface_result <~ huggingface_example ;;
  print (or_no_result huggingface_result) ;;;
  print (nl ++ lit "Claude Example:") ;;;
  claude_result <~ claude_example ;;
  print (or_no_result claude_result).

End Examples.

(** The lines printed, in order. *)
Fixpoint printed (tr : list ev) : list str :=
  match tr with
  | [] => []
  | Print s :: tr' => s :: printed tr'
  | _ :: tr' => printed tr'
  end.

(** What the whole try block of an example amounts to. *)
Definition attempt (w : world) (p : provider) (prompt : str) : result str :=
  match (match p with
         | HuggingFace => import_pipeline w
         | _ => Ok tt
         end) with
  | Raise e => Raise e
  | Ok _ =>
      match build w p with
      | Raise e => Raise e
      | Ok _ => complete w p prompt
      end
  end.

(** The line an example prints when its try block raises [e]. *)
Definition failure_line (w : world) (p : provider) (e : exn) : str :=
  match p with
  | OpenAI => lit "OpenAI example failed: " ++ exn_text e
  | HuggingFace =>
      if is_ImportError w e
      then lit "Hugging Face example requires PyTorch or TensorFlow. Install using: pip install torch transformers"
      else lit "Hugging Face example failed: " ++ exn_text e
  | Claude => lit "Claude example failed: " ++ exn_text e
  end.

(** The lines that follow the header of an example. *)
Definition lines_after (w : world) (p : provider) (r : result str) : list str :=
  match r with
  | Ok (c :: s) => [c :: s]
  | Ok [] => [lit "No result"]
  | Raise e => [failure_line w p e; lit "No result"]
  end.

(** Every error of the world is an [Exception]. *)
Definition only_exceptions (w : world) : Prop :=
  (forall e, import_pipeline w = Raise e -> is_Exception e = true)
  /\ (forall p e, build w p = Raise e -> is_Exception e = true)
  /\ (forall p s e, complete w p s = Raise e -> is_Exception e = true).

(** OpenAI answers with the empty string, PyTorch is missing, Claude is
    out of credit. *)
Definition sample_world : world :=
  {| import_pipeline := Raise (exn_of OtherException "No module named 'torch'");
     build := fun _ => Ok tt;
     complete := fun p _ =>
       match p with
       | OpenAI => Ok []
       | HuggingFace => Ok (lit "story")
       | Claude => Raise (exn_of OtherException "credit balance too low")
       end;
     import_error := fun e =>
       str_eqb (exn_text e) (lit "No module named 'torch'") |}.

End MultiModel.

(* ================================================================== *)
(** ** Strings: stripping *)

Lemma lstrip_head c s : isspace c = false -> lstrip (c :: s) = c :: s.
Proof. intros H; simpl; now rewrite H. Qed.

Lemma lstrip_idem s : lstrip (lstrip s) = lstrip s.
Proof.
  induction s as [|c s IH]; simpl; auto.
  destruct (isspace c) eqn:E; auto.
  now apply lstrip_head.
Qed.

Lemma lstrip_forallb s : forallb isspace (lstrip s) = forallb isspace s.
Proof.
  induction s as [|c s IH]; simpl; auto.
  destruct (isspace c) eqn:E; simpl; auto.
  now rewrite E.
Qed.

Lemma lstrip_nil_iff s : lstrip s = [] <-> forallb isspace s = true.
Proof.
  induction s as [|c s IH]; simpl.
  - tauto.
  - destruct (isspace c) eqn:E; simpl; auto.
    split; discriminate.
Qed.

Lemma forallb_rev (f : char -> bool) s : forallb f (rev s) = forallb f s.
Proof.
  induction s as [|c s IH]; simpl; auto.
  rewrite forallb_app, IH; simpl.
  now rewrite andb_true_r, andb_comm.
Qed.

Lemma rstrip_nil_iff s : rstrip s = [] <-> forallb isspace s = true.
Proof.
  unfold rstrip. rewrite <- (forallb_rev isspace s), <- lstrip_nil_iff.
  split; intros H.
  - now rewrite <- (rev_involutive (lstrip (rev s))), H.
  - now rewrite H.
Qed.

Lemma strip_nil_iff s : strip s = [] <-> forallb isspace s = true.
Proof. unfold strip. now rewrite rstrip_nil_iff, lstrip_forallb. Qed.

Lemma lstrip_snoc u c :
  isspace c = false -> exists v, lstrip (u ++ [c]) = v ++ [c].
Proof.
  intros H. induction u as [|d u IH]; simpl.
  - rewrite H. now exists [].
  - destruct (isspace d); auto. now exists (d :: u).
Qed.

Lemma rstrip_keeps_head c t :
  isspace c = false -> exists v, rstrip (c :: t) = c :: v.
Proof.
  intros H. unfold rstrip. simpl.
  destruct (lstrip_snoc (rev t) c H) as [v ->].
  rewrite rev_app_distr. simpl. now exists (rev v).
Qed.

Lemma lstrip_rstrip_lstrip s : lstrip (rstrip (lstrip s)) = rstrip (lstrip s).
Proof.
  destruct (lstrip s) as [|c t] eqn:E.
  - reflexivity.
  - assert (Hc : isspace c = false).
    { clear -E. induction s as [|d s IH]; simpl in E; [discriminate|].
      destruct (isspace d) eqn:Ed; auto. now inversion E; subst. }
    destruct (rstrip_keeps_head c t Hc) as [v ->]. now apply lstrip_head.
Qed.

Lemma rstrip_idem s : rstrip (rstrip s) = rstrip s.
Proof. unfold rstrip. now rewrite rev_involutive, lstrip_idem. Qed.

Lemma strip_idem s : strip (strip s) = strip s.
Proof.
  unfold strip at 1. fold (strip s). unfold strip.
  now rewrite lstrip_rstrip_lstrip, rstrip_idem.
Qed.

Lemma startswith_nonempty s p : p <> [] -> startswith s p = true -> s <> [].
Proof.
  intros Hp H ->. unfold startswith in H.
  destruct p; [congruence | discriminate].
Qed.

(* ================================================================== *)
(** ** The extractor *)

Lemma char_eqb_refl c : char_eqb c c = true.
Proof. apply N.eqb_refl. Qed.

Lemma strip_prefix_app p r : strip_prefix p (p ++ r) = Some r.
Proof. induction p as [|x p IH]; simpl; auto. now rewrite char_eqb_refl. Qed.

Lemma strip_prefix_fence_inside x rest :
  x <> [] -> startswith (x ++ fence) fence = false ->
  strip_prefix fence (x ++ rest) = None.
Proof.
  intros Hx H. unfold startswith in H.
  destruct (strip_prefix fence (x ++ fence)) eqn:E; [discriminate|]. clear H.
  revert E. change fence with [96; 96; 96]%N.
  assert (R : char_eqb 96%N 96%N = true) by reflexivity.
  destruct x as [|a [|b [|c x]]]; [contradiction| | |];
    cbn [strip_prefix app];
    repeat (first [ rewrite R
                  | match goal with
                    | |- context [char_eqb 96%N ?q] =>
                        is_var q; destruct (char_eqb 96%N q)
                    end ];
            cbn [strip_prefix app]);
    congruence.
Qed.

Lemma fence_free_suffix b1 b2 : fence_free (b1 ++ b2) = true -> fence_free b2 = true.
Proof.
  induction b1 as [|c b1 IH]; auto.
  cbn [app fence_free]. rewrite andb_true_iff. intros [_ H]. auto.
Qed.

Lemma fence_free_head c s rest :
  fence_free (c :: s) = true -> strip_prefix fence (c :: s ++ rest) = None.
Proof.
  cbn [fence_free]. rewrite andb_true_iff, negb_true_iff. intros [H _].
  apply (strip_prefix_fence_inside (c :: s) rest); [discriminate | exact H].
Qed.

Lemma lazy_any_shortest k g rest body : forall acc,
  k rest = Some g ->
  (forall b1 c b2, body = b1 ++ c :: b2 -> k (c :: b2 ++ rest) = None) ->
  Re.lazy_any k acc (body ++ rest) = Some (rev acc ++ body).
Proof.
  induction body as [|c body IH]; intros acc Hk Hno.
  - simpl. destruct rest; simpl; rewrite Hk; now rewrite app_nil_r.
  - simpl. rewrite (Hno [] c body eq_refl).
    rewrite IH; auto.
    + simpl. now rewrite <- app_assoc.
    + intros b1 d b2 ->. apply (Hno (c :: b1) d b2). reflexivity.
Qed.

Lemma lazy_until_fence body post :
  fence_free body = true ->
  Re.lazy_any (Re.match_here [Re.Lit fence]) [] (body ++ fence ++ post) = Some body.
Proof.
  intros Hb.
  apply (lazy_any_shortest (Re.match_here [Re.Lit fence]) [] (fence ++ post) body []).
  - cbn [Re.match_here]. now rewrite strip_prefix_app.
  - intros b1 c b2 ->. cbn [Re.match_here].
    now rewrite (fence_free_head c b2 (fence ++ post) (fence_free_suffix b1 _ Hb)).
Qed.

Lemma strip_prefix_sound p : forall s r, strip_prefix p s = Some r -> s = p ++ r.
Proof.
  induction p as [|x p IH]; intros s r H; simpl in H.
  - now inversion H.
  - destruct s as [|y s]; [discriminate|].
    destruct (char_eqb x y) eqn:E; [|discriminate].
    apply N.eqb_eq in E. subst y. simpl. f_equal. now apply IH.
Qed.

Lemma contains_false_search l p : forall s,
  contains l s = false -> Re.search (Re.Lit l :: p) s = None.
Proof.
  induction s as [|c s IH]; cbn [contains Re.search Re.match_here];
    rewrite orb_false_iff; unfold startswith; intros [H1 H2].
  - now destruct (strip_prefix l []).
  - destruct (strip_prefix l (c :: s)); [discriminate|]. auto.
Qed.

Lemma match_here_Lit l p s :
  Re.match_here (Re.Lit l :: p) s
  = match strip_prefix l s with
    | Some r => Re.match_here p r
    | None => None
    end.
Proof. reflexivity. Qed.

Lemma match_here_OptLit l p s :
  Re.match_here (Re.OptLit l :: p) s
  = match strip_prefix l s with
    | Some r =>
        match Re.match_here p r with
        | Some g => Some g
        | None => Re.match_here p s
        end
    | None => Re.match_here p s
    end.
Proof. reflexivity. Qed.

Lemma strip_prefix_split a b : forall s,
  strip_prefix (a ++ b) s
  = match strip_prefix a s with
    | Some r => strip_prefix b r
    | None => None
    end.
Proof.
  induction a as [|x a IH]; intros s; cbn [app strip_prefix]; auto.
  destruct s as [|y s]; auto. destruct (char_eqb x y); auto.
Qed.

(** The lazy group before a closing literal takes the text before the
    first place where the literal begins. *)
Lemma lazy_any_text_before close : forall r acc,
  Re.lazy_any (Re.match_here [Re.Lit close]) acc r
  = match text_before close r with
    | Some g => Some (rev acc ++ g)
    | None => None
    end.
Proof.
  induction r as [|c r IH]; intros acc;
    cbn [Re.lazy_any Re.match_here text_before].
  - destruct (strip_prefix close []); [now rewrite app_nil_r | reflexivity].
  - destruct (strip_prefix close (c :: r)); [now rewrite app_nil_r|].
    rewrite IH. destruct (text_before close r); auto.
    cbn [rev]. now rewrite <- app_assoc.
Qed.

Lemma text_before_None close : forall r,
  text_before close r = None -> contains close r = false.
Proof.
  induction r as [|c r IH]; cbn [text_before contains]; unfold startswith.
  - now destruct (strip_prefix close []).
  - destruct (strip_prefix close (c :: r)); [discriminate|].
    destruct (text_before close r); [discriminate|]. auto.
Qed.

Lemma text_before_fence_free body post :
  fence_free body = true -> text_before fence (body ++ fence ++ post) = Some body.
Proof.
  intros Hb. generalize (lazy_until_fence body post Hb).
  rewrite lazy_any_text_before.
  destruct (text_before fence (body ++ fence ++ post)); auto.
Qed.

Lemma match_here_newline_group r :
  Re.match_here [Re.Lit nl; Re.LazyAny; Re.Lit fence] r
  = match strip_prefix nl r with
    | Some r' => text_before fence r'
    | None => None
    end.
Proof.
  rewrite match_here_Lit. destruct (strip_prefix nl r) as [r'|]; auto.
  change (Re.match_here [Re.LazyAny; Re.Lit fence] r')
    with (Re.lazy_any (Re.match_here [Re.Lit fence]) [] r').
  rewrite lazy_any_text_before. now destruct (text_before fence r').
Qed.

(** At one position the pattern matches exactly an opening fence
    followed somewhere by a triple backtick. *)
Lemma match_here_fenced s :
  Re.match_here fenced_pattern s
  = match opening_fence s with
    | Some r => text_before fence r
    | None => None
    end.
Proof.
  unfold fenced_pattern, opening_fence.
  rewrite match_here_Lit.
  rewrite (strip_prefix_split fence nl),
    (strip_prefix_split fence (lit "python" ++ nl)).
  destruct (strip_prefix fence s) as [r|]; auto.
  rewrite match_here_OptLit, (strip_prefix_split (lit "python") nl).
  destruct (strip_prefix (lit "python") r) as [r1|] eqn:Ep;
    rewrite !match_here_newline_group.
  - apply strip_prefix_sound in Ep. subst r.
    change (strip_prefix nl (lit "python" ++ r1)) with (@None str).
    destruct (strip_prefix nl r1) as [r2|]; auto.
    now destruct (text_before fence r2).
  - now destruct (strip_prefix nl r).
Qed.

Lemma opening_fence_sound s r :
  opening_fence s = Some r ->
  s = fence ++ nl ++ r \/ s = fence ++ lit "python" ++ nl ++ r.
Proof.
  unfold opening_fence.
  destruct (strip_prefix (fence ++ nl) s) as [r'|] eqn:E; intros H.
  - left. assert (r' = r) by congruence. subst r'.
    apply strip_prefix_sound in E. now rewrite <- app_assoc in E.
  - right. apply strip_prefix_sound in H. now rewrite <- !app_assoc in H.
Qed.

(** Behind an opening fence that no triple backtick follows, the pattern
    matches nowhere. *)
Lemma search_behind_open_fence c s r :
  opening_fence (c :: s) = Some r -> text_before fence r = None ->
  Re.search fenced_pattern s = None.
Proof.
  intros Ho Ht. apply text_before_None in Ht.
  unfold fenced_pattern. apply contains_false_search.
  apply opening_fence_sound in Ho as [H | H].
  - change (fence ++ nl ++ r) with (96 :: 96 :: 96 :: 10 :: r)%N in H.
    injection H as _ ->. exact Ht.
  - change (fence ++ lit "python" ++ nl ++ r)
      with (96 :: 96 :: 96 :: lit "python" ++ nl ++ r)%N in H.
    injection H as _ ->. exact Ht.
Qed.

(** [re.search] with the fenced pattern finds the block of the leftmost
    opening fence. *)
Lemma search_fenced_leftmost : forall s,
  Re.search fenced_pattern s = leftmost_fenced_block s.
Proof.
  induction s as [|c s IH]; [reflexivity|].
  cbn [Re.search leftmost_fenced_block]. rewrite match_here_fenced.
  destruct (opening_fence (c :: s)) as [r|] eqn:Eo; [|exact IH].
  destruct (text_before fence r) eqn:Et; [reflexivity|].
  exact (search_behind_open_fence c s r Eo Et).
Qed.

Lemma leftmost_fenced_block_skip rest : forall pre,
  no_opening_fence pre rest = true ->
  leftmost_fenced_block (pre ++ rest) = leftmost_fenced_block rest.
Proof.
  induction pre as [|c pre IH]; [reflexivity|].
  change ((c :: pre) ++ rest) with (c :: pre ++ rest).
  cbn [no_opening_fence leftmost_fenced_block].
  change (c :: pre ++ rest) with ((c :: pre) ++ rest).
  destruct (opening_fence ((c :: pre) ++ rest)); [discriminate|]. exact IH.
Qed.

Lemma leftmost_fenced_block_eq s :
  leftmost_fenced_block s
  = match opening_fence s with
    | Some r => text_before fence r
    | None =>
        match s with
        | [] => None
        | _ :: s' => leftmost_fenced_block s'
        end
    end.
Proof. destruct s; reflexivity. Qed.

Lemma opening_fence_tagged tag r :
  tag = [] \/ tag = lit "python" ->
  opening_fence (fence ++ tag ++ nl ++ r) = Some r.
Proof.
  unfold opening_fence. intros [-> | ->].
  - change (fence ++ [] ++ nl ++ r) with ((fence ++ nl) ++ r).
    now rewrite strip_prefix_app.
  - change (strip_prefix (fence ++ nl) (fence ++ lit "python" ++ nl ++ r))
      with (@None str).
    change (fence ++ lit "python" ++ nl ++ r)
      with ((fence ++ lit "python" ++ nl) ++ r).
    now rewrite strip_prefix_app.
Qed.

(** C6 (amended): the fenced-block heuristic comes first and wins over
    everything around it.  On every text, what [re.search] captures with
    the fenced pattern is the block of the leftmost opening fence: the
    leftmost triple backtick that is followed directly by a newline or
    by the tag [python] and a newline, and from there the shortest span
    up to the next triple backtick; a triple backtick that is followed
    by anything else, such as another tag, is passed over, and without a
    closing triple backtick nothing matches.  The extractor returns that
    block with its outer whitespace trimmed, whatever else the text
    holds.  So in any text in which no opening fence begins before the
    one at hand, and no triple backtick begins inside the body (which
    may hold newlines and single backticks), the body is captured
    whatever stands before the opening fence and whatever follows the
    closing one.  When no fenced block matches, a [<code>] block decides
    in the same way. *)
Theorem extract_code_block_fenced pre tag body post :
  no_opening_fence pre (fence ++ tag ++ nl ++ body ++ fence ++ post) = true ->
  fence_free body = true ->
  tag = [] \/ tag = lit "python" ->
  Re.search fenced_pattern (pre ++ fence ++ tag ++ nl ++ body ++ fence ++ post)
    = Some body
  /\ extract_code_block (pre ++ fence ++ tag ++ nl ++ body ++ fence ++ post)
    = strip body
  /\ (forall s, Re.search fenced_pattern s = leftmost_fenced_block s)
  /\ (forall s g, leftmost_fenced_block s = Some g ->
                  extract_code_block s = strip g)
  /\ (forall s g, Re.search fenced_pattern s = None ->
                  Re.search marker_pattern s = Some g ->
                  extract_code_block s = strip g).
Proof.
  intros Hpre Hbody Htag.
  assert (Hs : Re.search fenced_pattern
                 (pre ++ fence ++ tag ++ nl ++ body ++ fence ++ post)
               = Some body).
  { rewrite search_fenced_leftmost.
    rewrite (leftmost_fenced_block_skip _ pre Hpre).
    rewrite leftmost_fenced_block_eq, (opening_fence_tagged tag _ Htag).
    now apply text_before_fence_free. }
  split; [exact Hs|]. split; [|split; [|split]].
  - unfold extract_code_block. now rewrite Hs.
  - exact search_fenced_leftmost.
  - intros s g H. unfold extract_code_block.
    now rewrite search_fenced_leftmost, H.
  - intros s g H1 H2. unfold extract_code_block. now rewrite H1, H2.
Qed.

(** The example of the specification is the instance with prefix
    ["Here:\n"], tag [python] and suffix ["\nend"].  In the second text
    a triple backtick tagged [js] stands before the opening fence; it is
    passed over. *)
Lemma extract_code_block_fenced_witness :
  (Re.search fenced_pattern spec_example_input
     = Some (lit "def f():" ++ nl ++ lit "    return 1" ++ nl)
   /\ extract_code_block spec_example_input
     = lit "def f():" ++ nl ++ lit "    return 1")
  /\ extract_code_block
       (lit "Use ```js for JS." ++ nl ++ lit "```python" ++ nl
        ++ lit "y = 2" ++ nl ++ lit "```")
     = lit "y = 2".
Proof.
  split.
  - destruct (extract_code_block_fenced
                (lit "Here:" ++ nl) (lit "python")
                (lit "def f():" ++ nl ++ lit "    return 1" ++ nl)
                (nl ++ lit "end")) as [H1 [H2 _]].
    + reflexivity.
    + reflexivity.
    + right. reflexivity.
    + split; [exact H1 | exact H2].
  - destruct (extract_code_block_fenced
                (lit "Use ```js for JS." ++ nl) (lit "python")
                (lit "y = 2" ++ nl) []) as [_ [H2 _]].
    + reflexivity.
    + reflexivity.
    + right. reflexivity.
    + exact H2.
Defined.

(** C6, as stated, fails for a language tag other than [python]: the
    block tagged [js] is not matched and the placeholder comes back. *)
Lemma extract_code_block_other_tag :
  Re.search fenced_pattern (lit "```js" ++ nl ++ lit "x" ++ nl ++ lit "```") = None
  /\ extract_code_block (lit "```js" ++ nl ++ lit "x" ++ nl ++ lit "```")
     = default_example
  /\ extract_code_block (lit "```js" ++ nl ++ lit "x" ++ nl ++ lit "```")
     <> lit "x".
Proof. repeat split; try reflexivity. vm_compute. discriminate. Qed.

(** C5 (amended): extraction is a total function; when neither
    delimiter heuristic matches the result is non-empty, and it is the
    placeholder stub when the text does not look like code either; the
    result is empty exactly when the first matching delimiter heuristic
    captured nothing but whitespace. *)
Theorem extract_code_block_empty_iff model_output :
  (first_capture model_output = None -> extract_code_block model_output <> [])
  /\ (first_capture model_output = None ->
      startswith (strip model_output) (lit "def ")
      || startswith (strip model_output) (lit "import ") = false ->
      extract_code_block model_output = default_example)
  /\ default_example <> []
  /\ (extract_code_block model_output = [] <->
      exists g, first_capture model_output = Some g /\ forallb isspace g = true).
Proof.
  unfold first_capture, extract_code_block.
  destruct (Re.search fenced_pattern model_output) as [g1|] eqn:E1.
  - repeat split; try discriminate.
    + intros H. exists g1. split; auto. now apply strip_nil_iff.
    + intros [g [Hg Hs]]. inversion Hg; subst. now apply strip_nil_iff.
  - destruct (Re.search marker_pattern model_output) as [g2|] eqn:E2.
    + repeat split; try discriminate.
      * intros H. exists g2. split; auto. now apply strip_nil_iff.
      * intros [g [Hg Hs]]. inversion Hg; subst. now apply strip_nil_iff.
    + destruct (startswith (strip model_output) (lit "def ")) eqn:Ed.
      * repeat split; try discriminate.
        -- intros _. revert Ed. apply startswith_nonempty. discriminate.
        -- intros H. exfalso. revert H. revert Ed.
           apply startswith_nonempty. discriminate.
        -- intros [g [Hg _]]. discriminate.
      * destruct (startswith (strip model_output) (lit "import ")) eqn:Ei;
          cbn [orb].
        -- repeat split; try discriminate.
           ++ intros _. revert Ei. apply startswith_nonempty. discriminate.
           ++ intros H. exfalso. revert H. revert Ei.
              apply startswith_nonempty. discriminate.
           ++ intros [g [Hg _]]. discriminate.
        -- repeat split; try discriminate.
           intros [g [Hg _]]. discriminate.
Qed.

(** [extract("no code here")]: nothing matches, the stub comes back. *)
Lemma extract_code_block_empty_iff_witness :
  extract_code_block (lit "no code here") = default_example
  /\ extract_code_block (lit "no code here") <> [].
Proof.
  destruct (extract_code_block_empty_iff (lit "no code here"))
    as (H1 & H2 & _).
  split.
  - apply H2; reflexivity.
  - apply H1; reflexivity.
Defined.

(** C5, as stated, fails on an empty fenced block: the result is the
    empty string. *)
Lemma extract_code_block_empty_fence :
  extract_code_block (lit "```" ++ nl ++ lit "```") = []
  /\ extract_code_block (lit "<code> </code>") = [].
Proof. split; reflexivity. Qed.

(** C10: whatever branch produced it, the extracted string is its own
    whitespace-trim. *)
Theorem extract_code_block_stripped model_output :
  strip (extract_code_block model_output) = extract_code_block model_output.
Proof.
  unfold extract_code_block.
  destruct (Re.search fenced_pattern model_output); [apply strip_idem|].
  destruct (Re.search marker_pattern model_output); [apply strip_idem|].
  destruct (startswith (strip model_output) (lit "def ")
            || startswith (strip model_output) (lit "import "));
    [apply strip_idem | reflexivity].
Qed.


(* ================================================================== *)
(** ** The effect monad and traces *)

Lemma bind_ok {A B} (c : M A) (k : A -> M B) tr a tr' :
  c tr = (Ok a, tr') -> bind c k tr = k a tr'.
Proof. intros H. unfold bind. now rewrite H. Qed.

Lemma bind_raise {A B} (c : M A) (k : A -> M B) tr e tr' :
  c tr = (Raise e, tr') -> bind c k tr = (Raise e, tr').
Proof. intros H. unfold bind. now rewrite H. Qed.

Lemma bind_assoc {A B C} (c : M A) (f : A -> M B) (g : B -> M C) tr :
  bind (bind c f) g tr = bind c (fun a => bind (f a) g) tr.
Proof. unfold bind. now destruct (c tr) as [[a|e] tr']. Qed.

Lemma invocations_app a b : invocations (a ++ b) = invocations a ++ invocations b.
Proof.
  induction a as [|ev a IH]; simpl; auto.
  destruct ev; simpl; now rewrite IH.
Qed.

Lemma progress_of_app a b : progress_of (a ++ b) = progress_of a ++ progress_of b.
Proof.
  induction a as [|ev a IH]; simpl; auto.
  destruct ev; simpl; now rewrite IH.
Qed.

Lemma sleeps_of_app a b : sleeps_of (a ++ b) = sleeps_of a ++ sleeps_of b.
Proof.
  induction a as [|ev a IH]; simpl; auto.
  destruct ev; simpl; now rewrite IH.
Qed.

Lemma calls_to_app c a b : calls_to c (a ++ b) = calls_to c a + calls_to c b.
Proof.
  unfold calls_to. now rewrite invocations_app, filter_app, length_app.
Qed.

(* ================================================================== *)
(** ** Backoff *)

Lemma wait_exponential_spec multiplier min max i :
  (0 <= min <= max)%Z ->
  Tenacity.wait_exponential multiplier min max (S i)
  = spec_backoff multiplier min max i.
Proof.
  intros H. unfold Tenacity.wait_exponential, spec_backoff.
  replace (S i - 1) with i by lia.
  lia.
Qed.

(** C4: with the configured [multiplier=1, min=4, max=10], the delay
    that follows attempt number [i+1] (attempt index [i]) is
    [min(10, max(4, 1 * 2^i))] for every [i]; for [i = 0, 1, 2] that is
    4, 4 and 4 seconds, and [generate_with_retry] on a model that is
    always rate limited sleeps exactly the first two of them. *)
Theorem backoff_formula :
  (forall i, backoff (S i) = spec_backoff 1 4 10 i)
  /\ map backoff [1; 2; 3] = [4; 4; 4]%Z
  /\ map (spec_backoff 1 4 10) [0; 1; 2] = [4; 4; 4]%Z
  /\ sleeps_of (snd (generate_with_retry rate_limited_env
                       (research_chain (lit "topic")) EmptyDict []))
     = [spec_backoff 1 4 10 0; spec_backoff 1 4 10 1].
Proof.
  split; [|repeat split; reflexivity].
  intros i. unfold backoff. apply wait_exponential_spec. lia.
Qed.

(* ================================================================== *)
(** ** The retry loop *)

(** The loop of [Tenacity.retrying] stops on [remaining = 0]; with
    [remaining = n - attempt_number] that is the test of
    [stop_after_attempt(n)]. *)
Lemma stop_after_attempt_remaining n attempt_number :
  Tenacity.stop_after_attempt n attempt_number = (n - attempt_number =? 0).
Proof.
  unfold Tenacity.stop_after_attempt.
  destruct (Nat.leb_spec n attempt_number), (Nat.eqb_spec (n - attempt_number) 0);
    auto; lia.
Qed.

Lemma retrying_always_fails {A} (fn : M A) (inv : list client) :
  (forall tr, exists e ext,
      fn tr = (Raise e, tr ++ ext) /\ is_Exception e = true
      /\ invocations ext = inv /\ sleeps_of ext = []) ->
  forall r k tr, exists e ext,
    Tenacity.retrying backoff r k fn tr = (Raise e, tr ++ ext)
    /\ invocations ext = concat (repeat inv (S r))
    /\ sleeps_of ext = map backoff (seq k r)
    /\ exists pre last, tr ++ ext = pre ++ last
                        /\ fn pre = (Raise e, pre ++ last).
Proof.
  intros Hfn. induction r as [|r IH]; intros k tr.
  - destruct (Hfn tr) as (e & ext & Hrun & He & Hinv & Hsl).
    exists e, ext. cbn [Tenacity.retrying]. unfold try_catch.
    rewrite Hrun, He. unfold raise. repeat split; auto.
    + simpl. now rewrite app_nil_r.
    + now exists tr, ext.
  - destruct (Hfn tr) as (e1 & ext1 & Hrun & He & Hinv & Hsl).
    destruct (IH (S k) ((tr ++ ext1) ++ [ESleep (backoff k)]))
      as (e & ext & Hrec & Hinv' & Hsl' & pre & last & Hsplit & Hlast).
    exists e, (ext1 ++ [ESleep (backoff k)] ++ ext).
    cbn [Tenacity.retrying]. unfold try_catch at 1.
    rewrite Hrun, He. unfold bind at 1, emit at 1.
    rewrite Hrec. repeat split.
    + now rewrite <- !app_assoc.
    + rewrite !invocations_app, Hinv, Hinv'. cbn [repeat concat invocations app].
      reflexivity.
    + rewrite !sleeps_of_app, Hsl, Hsl'. reflexivity.
    + exists pre, last. split; auto. rewrite <- Hsplit. now rewrite <- !app_assoc.
Qed.

(* ================================================================== *)
(** ** One attempt of generate_with_retry *)

Section Attempt.

Variable env : Env.
Variable model : chain.
Variable prompt : model_input.

Lemma attempt_primary_ok tr content :
  reply env tr (chain_model model) (chain_messages model) = Ok content ->
  generate_attempt env model prompt tr
  = (Ok (if chain_str_parser model then PyStr content else AIMessage content),
     tr ++ [EInvoke (chain_model model) (chain_messages model)]).
Proof.
  intros H. unfold generate_attempt, try_catch, invoke_chain, bind, invoke_model.
  now rewrite H.
Qed.

Lemma attempt_uncaught tr e :
  reply env tr (chain_model model) (chain_messages model) = Raise e ->
  is_APIError e = false ->
  generate_attempt env model prompt tr
  = (Raise e, tr ++ [EInvoke (chain_model model) (chain_messages model)]).
Proof.
  intros H Hc. unfold generate_attempt, try_catch, invoke_chain, bind, invoke_model.
  now rewrite H, Hc.
Qed.

Lemma attempt_backup_ok tr e content :
  reply env tr (chain_model model) (chain_messages model) = Raise e ->
  is_APIError e = true ->
  reply env (tr ++ [EInvoke (chain_model model) (chain_messages model);
                    ELogger Warning (primary_failed_message e)])
        BackupModel prompt = Ok content ->
  generate_attempt env model prompt tr
  = (Ok (AIMessage content),
     tr ++ [EInvoke (chain_model model) (chain_messages model);
            ELogger Warning (primary_failed_message e);
            EInvoke BackupModel prompt]).
Proof.
  intros H Hc Hb.
  unfold generate_attempt, try_catch, invoke_chain, bind, invoke_model,
    logger, emit, ret.
  rewrite H, Hc.
  rewrite <- !app_assoc. cbn [app]. rewrite Hb.
  reflexivity.
Qed.

Lemma attempt_backup_fails tr e backup_error :
  reply env tr (chain_model model) (chain_messages model) = Raise e ->
  is_APIError e = true ->
  reply env (tr ++ [EInvoke (chain_model model) (chain_messages model);
                    ELogger Warning (primary_failed_message e)])
        BackupModel prompt = Raise backup_error ->
  is_Exception backup_error = true ->
  generate_attempt env model prompt tr
  = (Raise backup_error,
     tr ++ [EInvoke (chain_model model) (chain_messages model);
            ELogger Warning (primary_failed_message e);
            EInvoke BackupModel prompt;
            ELogger Error (backup_failed_message backup_error)]).
Proof.
  intros H Hc Hb He.
  unfold generate_attempt, try_catch, invoke_chain, bind, invoke_model,
    logger, emit, ret, raise.
  rewrite H, Hc.
  rewrite <- !app_assoc. cbn [app]. rewrite Hb, He.
  rewrite <- !app_assoc. reflexivity.
Qed.

End Attempt.

(* ================================================================== *)
(** ** generate_with_retry under an attempt budget *)

Lemma APIError_is_Exception e : is_APIError e = true -> is_Exception e = true.
Proof. unfold is_APIError, is_Exception. now destruct (exn_cls e). Qed.

Lemma client_eqb_refl c : client_eqb c c = true.
Proof. now destruct c. Qed.

Lemma client_eqb_neq a b : a <> b -> client_eqb a b = false.
Proof. destruct a, b; auto; intros H; now elim H. Qed.

Lemma concat_repeat_singleton {A} (x : A) n : concat (repeat [x] n) = repeat x n.
Proof. induction n; simpl; congruence. Qed.

Lemma count_concat_repeat c block n :
  List.length (filter (client_eqb c) (concat (repeat block n)))
  = n * List.length (filter (client_eqb c) block).
Proof.
  induction n as [|n IH]; simpl; auto.
  now rewrite filter_app, length_app, IH.
Qed.

(** C1 (amended): under a budget of [N >= 1] attempts and a primary
    model that raises an anthropic API error on every call, every
    attempt calls the primary once and goes to the backup model at once.
    If the backup answers the first time, its answer is returned after
    one primary call and one backup call.  If the backup fails on every
    call, primary and backup are called alternately, [N] times each,
    with the backoff sleeps between attempts, and the error raised is
    the backup's error of the last attempt: the backup attempt is
    retried together with the primary. *)
Theorem generate_with_budget_fallback_each_attempt env N model prompt tr :
  1 <= N ->
  (forall t i, exists e,
      reply env t (chain_model model) i = Raise e /\ is_APIError e = true) ->
  (forall e content,
      reply env tr (chain_model model) (chain_messages model) = Raise e ->
      reply env (tr ++ [EInvoke (chain_model model) (chain_messages model);
                        ELogger Warning (primary_failed_message e)])
            BackupModel prompt = Ok content ->
      generate_with_budget env N model prompt tr
      = (Ok (AIMessage content),
         tr ++ [EInvoke (chain_model model) (chain_messages model);
                ELogger Warning (primary_failed_message e);
                EInvoke BackupModel prompt]))
  /\ ((forall t i, exists e,
          reply env t BackupModel i = Raise e /\ is_Exception e = true) ->
      exists e ext,
        generate_with_budget env N model prompt tr = (Raise e, tr ++ ext)
        /\ invocations ext = concat (repeat [chain_model model; BackupModel] N)
        /\ (chain_model model <> BackupModel ->
            calls_to (chain_model model) ext = N /\ calls_to BackupModel ext = N)
        /\ sleeps_of ext = map backoff (seq 1 (N - 1))
        /\ exists pre primary_error,
            tr ++ ext
            = pre ++ [EInvoke (chain_model model) (chain_messages model);
                      ELogger Warning (primary_failed_message primary_error);
                      EInvoke BackupModel prompt;
                      ELogger Error (backup_failed_message e)]
            /\ reply env
                 (pre ++ [EInvoke (chain_model model) (chain_messages model);
                          ELogger Warning (primary_failed_message primary_error)])
                 BackupModel prompt = Raise e).
Proof.
  intros HN Hprimary. split.
  - intros e content He Hb.
    destruct (Hprimary tr (chain_messages model)) as (e' & He' & Hc).
    rewrite He in He'. inversion He'; subst e'.
    unfold generate_with_budget, Tenacity.retry.
    destruct (N - 1); cbn [Tenacity.retrying]; unfold try_catch at 1;
      now rewrite (attempt_backup_ok env model prompt tr e content He Hc Hb).
  - intros Hbackup.
    assert (Hattempt : forall t, exists e last,
               generate_attempt env model prompt t = (Raise e, t ++ last)
               /\ is_Exception e = true
               /\ invocations last = [chain_model model; BackupModel]
               /\ sleeps_of last = []).
    { intros t.
      destruct (Hprimary t (chain_messages model)) as (ep & Hep & Hc).
      destruct (Hbackup
                  (t ++ [EInvoke (chain_model model) (chain_messages model);
                         ELogger Warning (primary_failed_message ep)]) prompt)
        as (eb & Heb & Hx).
      eexists; eexists. split.
      - apply (attempt_backup_fails env model prompt t ep eb Hep Hc Heb Hx).
      - repeat split; auto. }
    destruct (retrying_always_fails _ _ Hattempt (N - 1) 1 tr)
      as (e & ext & Hrun & Hinv & Hsl & pre & last & Hsplit & Hlast).
    replace (S (N - 1)) with N in Hinv by lia.
    exists e, ext. unfold generate_with_budget, Tenacity.retry.
    repeat split; auto.
    + unfold calls_to. rewrite Hinv, count_concat_repeat.
      cbn [filter]. rewrite client_eqb_refl, client_eqb_neq by assumption.
      simpl. lia.
    + unfold calls_to. rewrite Hinv, count_concat_repeat.
      cbn [filter]. rewrite client_eqb_neq by congruence.
      simpl. lia.
    + destruct (Hprimary pre (chain_messages model)) as (ep & Hep & Hc).
      destruct (Hbackup
                  (pre ++ [EInvoke (chain_model model) (chain_messages model);
                           ELogger Warning (primary_failed_message ep)]) prompt)
        as (eb & Heb & Hx).
      rewrite (attempt_backup_fails env model prompt pre ep eb Hep Hc Heb Hx)
        in Hlast.
      inversion Hlast as [[He Hl]]. subst eb.
      apply app_inv_head in Hl. subst last.
      exists pre, ep. split; auto.
Qed.

(** In a world where every model is rate limited, three attempts call
    the research model and the backup three times each. *)
Lemma generate_with_budget_fallback_each_attempt_witness :
  exists e ext,
    generate_with_budget rate_limited_env 3 (research_chain (lit "topic"))
                         EmptyDict [] = (Raise e, [] ++ ext)
    /\ invocations ext
       = [ResearchModel; BackupModel; ResearchModel; BackupModel;
          ResearchModel; BackupModel].
Proof.
  destruct (generate_with_budget_fallback_each_attempt
              rate_limited_env 3 (research_chain (lit "topic")) EmptyDict [])
    as [_ H].
  - lia.
  - intros t i. eexists. split; reflexivity.
  - destruct H as (e & ext & Hrun & Hinv & _).
    + intros t i. eexists. split; reflexivity.
    + exists e, ext. split; [exact Hrun | exact Hinv].
Defined.

(** C1, as stated, fails: the backup is not kept for the end and is
    not tried only once.  With every model rate limited it is called
    after each of the three primary calls; and when it answers, it does
    so after a single primary call. *)
Lemma generate_with_retry_interleaves_backup :
  invocations (snd (generate_with_retry rate_limited_env
                      (research_chain (lit "topic")) EmptyDict []))
  = [ResearchModel; BackupModel; ResearchModel; BackupModel;
     ResearchModel; BackupModel]
  /\ invocations (snd (generate_with_retry rate_limited_env
                         (research_chain (lit "topic")) EmptyDict []))
     <> [ResearchModel; ResearchModel; ResearchModel; BackupModel]
  /\ calls_to BackupModel
       (snd (generate_with_retry rate_limited_env
               (research_chain (lit "topic")) EmptyDict [])) = 3
  /\ generate_with_retry backup_answers_env (creative_chain (lit "R")) EmptyDict []
     = (Ok (AIMessage (lit "B")),
        [EInvoke CreativeModel (chain_messages (creative_chain (lit "R")));
         ELogger Warning
           (primary_failed_message (exn_of RateLimitError "rate limited"));
         EInvoke BackupModel EmptyDict]).
Proof. repeat split; try reflexivity. vm_compute. discriminate. Qed.

(** C2 (amended): an error that the [except] clause does not catch (an
    [Exception] outside [anthropic.APIError]) triggers no backup call,
    but it is retried like any other failure: a model that raises such
    an error on every call is called exactly [N] times, with the backoff
    sleeps between, and the error of its last call is raised. *)
Theorem generate_with_budget_uncaught_error env N model prompt tr :
  1 <= N ->
  (forall t i, exists e,
      reply env t (chain_model model) i = Raise e
      /\ is_APIError e = false /\ is_Exception e = true) ->
  exists e ext,
    generate_with_budget env N model prompt tr = (Raise e, tr ++ ext)
    /\ invocations ext = repeat (chain_model model) N
    /\ sleeps_of ext = map backoff (seq 1 (N - 1))
    /\ exists pre,
        tr ++ ext = pre ++ [EInvoke (chain_model model) (chain_messages model)]
        /\ reply env pre (chain_model model) (chain_messages model) = Raise e.
Proof.
  intros HN Hprimary.
  assert (Hattempt : forall t, exists e last,
             generate_attempt env model prompt t = (Raise e, t ++ last)
             /\ is_Exception e = true
             /\ invocations last = [chain_model model]
             /\ sleeps_of last = []).
  { intros t.
    destruct (Hprimary t (chain_messages model)) as (e & He & Hc & Hx).
    eexists; eexists. split.
    - apply (attempt_uncaught env model prompt t e He Hc).
    - repeat split; auto. }
  destruct (retrying_always_fails _ _ Hattempt (N - 1) 1 tr)
    as (e & ext & Hrun & Hinv & Hsl & pre & last & Hsplit & Hlast).
  replace (S (N - 1)) with N in Hinv by lia.
  rewrite concat_repeat_singleton in Hinv.
  exists e, ext. unfold generate_with_budget, Tenacity.retry.
  repeat split; auto.
  destruct (Hprimary pre (chain_messages model)) as (e' & He' & Hc & Hx).
  rewrite (attempt_uncaught env model prompt pre e' He' Hc) in Hlast.
  inversion Hlast as [[He Hl]]. subst e'.
  apply app_inv_head in Hl. subst last.
  exists pre. split; auto.
Qed.

(** The research model rejecting the API key: three calls, no backup. *)
Lemma generate_with_budget_uncaught_error_witness :
  exists e ext,
    generate_with_budget auth_failing_env 3 (research_chain (lit "topic"))
                         EmptyDict [] = (Raise e, [] ++ ext)
    /\ invocations ext = [ResearchModel; ResearchModel; ResearchModel].
Proof.
  destruct (generate_with_budget_uncaught_error
              auth_failing_env 3 (research_chain (lit "topic")) EmptyDict [])
    as (e & ext & Hrun & Hinv & _).
  - lia.
  - intros t i. eexists. repeat split; reflexivity.
  - exists e, ext. split; [exact Hrun | exact Hinv].
Defined.

(** C2, as stated, fails: an authentication error on the first call is
    retried.  Raised by the OpenAI-backed research model it leads to
    three calls; raised by the anthropic-backed creative model it is an
    [APIError] and each attempt also calls the backup. *)
Lemma generate_with_retry_retries_auth_error :
  invocations (snd (generate_with_retry auth_failing_env
                      (research_chain (lit "topic")) EmptyDict []))
  = [ResearchModel; ResearchModel; ResearchModel]
  /\ calls_to ResearchModel
       (snd (generate_with_retry auth_failing_env
               (research_chain (lit "topic")) EmptyDict [])) <> 1
  /\ invocations (snd (generate_with_retry auth_failing_env
                         (creative_chain (lit "R")) EmptyDict []))
     = [CreativeModel; BackupModel; CreativeModel; BackupModel;
        CreativeModel; BackupModel].
Proof. repeat split; try reflexivity. vm_compute. discriminate. Qed.

(* ================================================================== *)
(** ** format_code *)

Lemma str_eqb_eq a b : str_eqb a b = true <-> a = b.
Proof.
  revert b. induction a as [|x a IH]; destruct b as [|y b]; simpl;
    try (split; [discriminate | congruence]); try tauto.
  rewrite andb_true_iff. unfold char_eqb. rewrite N.eqb_eq, IH.
  split; [intros [-> ->]; reflexivity | intros H; inversion H; auto].
Qed.

(** C7: as long as what the formatters raise is an [Exception] (a
    syntax or internal error), [format_code] returns and never raises.
    A language whose lower-cased name is not [python] gives the code
    back untouched and neither formatter is run.  For [python], an
    error of [black] or of [isort] is caught, logged with its reason,
    and the original code is returned; otherwise the result is the
    output of [isort] on the output of [black]. *)
Theorem format_code_never_raises env code language tr :
  (forall c e, black_format_str env c = Raise e -> is_Exception e = true) ->
  (forall c e, isort_code env c = Raise e -> is_Exception e = true) ->
  (exists out tr', format_code env code language tr = (Ok out, tr'))
  /\ (lower env language <> lit "python" ->
      format_code env code language tr = (Ok code, tr))
  /\ (lower env language = lit "python" ->
      (forall e, black_format_str env code = Raise e ->
         format_code env code language tr
         = (Ok code,
            tr ++ [EBlack code;
                   ELogger Error (lit "Code formatting error: " ++ exn_text e)]))
      /\ (forall formatted_code e,
            black_format_str env code = Ok formatted_code ->
            isort_code env formatted_code = Raise e ->
            format_code env code language tr
            = (Ok code,
               tr ++ [EBlack code; EIsort formatted_code;
                      ELogger Error (lit "Code formatting error: " ++ exn_text e)]))
      /\ (forall formatted_code sorted_code,
            black_format_str env code = Ok formatted_code ->
            isort_code env formatted_code = Ok sorted_code ->
            format_code env code language tr
            = (Ok sorted_code, tr ++ [EBlack code; EIsort formatted_code]))).
Proof.
  intros Hblack Hisort.
  assert (Hno : lower env language <> lit "python" ->
                format_code env code language tr = (Ok code, tr)).
  { intros Hl. unfold format_code, try_catch.
    destruct (str_eqb (lower env language) (lit "python")) eqn:E.
    - apply str_eqb_eq in E. contradiction.
    - reflexivity. }
  assert (Hyes : lower env language = lit "python" ->
                 format_code env code language tr
                 = match black_format_str env code with
                   | Raise e =>
                       (Ok code,
                        tr ++ [EBlack code;
                               ELogger Error
                                 (lit "Code formatting error: " ++ exn_text e)])
                   | Ok formatted_code =>
                       match isort_code env formatted_code with
                       | Raise e =>
                           (Ok code,
                            tr ++ [EBlack code; EIsort formatted_code;
                                   ELogger Error
                                     (lit "Code formatting error: "
                                      ++ exn_text e)])
                       | Ok sorted_code =>
                           (Ok sorted_code,
                            tr ++ [EBlack code; EIsort formatted_code])
                       end
                   end).
  { intros Hl. apply str_eqb_eq in Hl.
    unfold format_code, try_catch, bind, logger, emit, lift, ret.
    rewrite Hl.
    destruct (black_format_str env code) as [f|e] eqn:Eb.
    - destruct (isort_code env f) as [g|e] eqn:Ei.
      + now rewrite <- app_assoc.
      + rewrite (Hisort _ _ Ei). now rewrite <- !app_assoc.
    - rewrite (Hblack _ _ Eb). now rewrite <- app_assoc. }
  split; [|split; [exact Hno|]].
  - destruct (str_eqb (lower env language) (lit "python")) eqn:E.
    + apply str_eqb_eq in E. rewrite (Hyes E).
      destruct (black_format_str env code) as [f|e]; [|eauto].
      destruct (isort_code env f); eauto.
    + exists code, tr. apply Hno. intros Hl. apply str_eqb_eq in Hl. congruence.
  - intros Hl. rewrite (Hyes Hl). repeat split.
    + intros e ->. reflexivity.
    + intros f e -> ->. reflexivity.
    + intros f g -> ->. reflexivity.
Qed.

(** [format("def f(:", "Python")] against a [black] that cannot parse
    it, and an unsupported language. *)
Lemma format_code_never_raises_witness :
  format_code bad_syntax_env (lit "def f(:") (lit "Python") []
  = (Ok (lit "def f(:"),
     [EBlack (lit "def f(:");
      ELogger Error (lit "Code formatting error: Cannot parse")])
  /\ format_code bad_syntax_env (lit "def f(:") (lit "javascript") []
     = (Ok (lit "def f(:"), []).
Proof.
  destruct (format_code_never_raises bad_syntax_env (lit "def f(:")
              (lit "Python") []) as (_ & _ & H).
  - intros c e H. inversion H. reflexivity.
  - intros c e H. discriminate H.
  - destruct (format_code_never_raises bad_syntax_env (lit "def f(:")
                (lit "javascript") []) as (_ & H' & _).
    + intros c e H0. inversion H0. reflexivity.
    + intros c e H0. discriminate H0.
    + split.
      * destruct (H eq_refl) as (Hb & _). apply (Hb _ eq_refl).
      * apply H'. vm_compute. discriminate.
Defined.

(* ================================================================== *)
(** ** What each computation may add to the trace *)

Lemma log_and_progress_eq progress_callback log_callback message percent tr :
  log_and_progress progress_callback log_callback message percent tr
  = (Ok tt, tr ++ say_events progress_callback log_callback message percent).
Proof.
  unfold log_and_progress, say_events, bind, logger, emit, ret.
  destruct log_callback, progress_callback, percent; cbn [app];
    now rewrite <- ?app_assoc.
Qed.

Lemma say_then {A} progress_callback log_callback message percent (c : M A) tr :
  (log_and_progress progress_callback log_callback message percent ;; c) tr
  = c (tr ++ say_events progress_callback log_callback message percent).
Proof. unfold bind. now rewrite log_and_progress_eq. Qed.

Lemma progress_of_say progress_callback log_callback message p :
  progress_of (say_events progress_callback log_callback message (Some p))
  = shown progress_callback [p].
Proof. now destruct progress_callback, log_callback. Qed.

Lemma invocations_say progress_callback log_callback message percent :
  invocations (say_events progress_callback log_callback message percent) = [].
Proof. now destruct progress_callback, log_callback, percent. Qed.

Lemma calls_to_say c progress_callback log_callback message percent :
  calls_to c (say_events progress_callback log_callback message percent) = 0.
Proof. unfold calls_to. now rewrite invocations_say. Qed.

Section Appends.

Context {A : Type} (P : event -> Prop).

Lemma appends_ret (a : A) : appends P (ret a).
Proof. intros tr. exists []. simpl. now rewrite app_nil_r. Qed.

Lemma appends_raise e : appends P (@raise A e).
Proof. intros tr. exists []. simpl. now rewrite app_nil_r. Qed.

Lemma appends_lift (r : result A) : appends P (lift r).
Proof. intros tr. exists []. simpl. now rewrite app_nil_r. Qed.

Lemma appends_try_catch (c : M A) h :
  appends P c -> (forall e, appends P (h e)) -> appends P (try_catch c h).
Proof.
  intros Hc Hh tr. unfold try_catch.
  destruct (Hc tr) as (ext & Hext & HP).
  destruct (c tr) as [[a|e] tr1]; simpl in Hext; subst tr1.
  - now exists ext.
  - destruct (Hh e (tr ++ ext)) as (ext' & Hext' & HP').
    exists (ext ++ ext'). rewrite Hext', app_assoc. split; auto.
    apply Forall_app; auto.
Qed.

Lemma appends_retrying wait (fn : M A) :
  appends P fn -> (forall d, P (ESleep d)) ->
  forall r k, appends P (Tenacity.retrying wait r k fn).
Proof.
  intros Hfn Hsleep. induction r as [|r IH]; intros k; cbn [Tenacity.retrying];
    apply appends_try_catch; auto; intros e;
    destruct (is_Exception e); try apply appends_raise.
  intros tr. unfold bind, emit.
  destruct (IH (S k) (tr ++ [ESleep (wait k)])) as (ext & Hext & HP).
  exists (ESleep (wait k) :: ext). split.
  - rewrite Hext. now rewrite <- app_assoc.
  - constructor; auto.
Qed.

End Appends.

Lemma appends_bind {A B} P (c : M A) (k : A -> M B) :
  appends P c -> (forall a, appends P (k a)) -> appends P (bind c k).
Proof.
  intros Hc Hk tr. unfold bind.
  destruct (Hc tr) as (ext & Hext & HP).
  destruct (c tr) as [[a|e] tr1]; simpl in Hext; subst tr1.
  - destruct (Hk a (tr ++ ext)) as (ext' & Hext' & HP').
    exists (ext ++ ext'). rewrite Hext', app_assoc. split; auto.
    apply Forall_app; auto.
  - now exists ext.
Qed.

Lemma appends_emit (P : event -> Prop) ev : P ev -> appends P (emit ev).
Proof. intros H tr. exists [ev]. split; auto. Qed.

Lemma appends_invoke env (P : event -> Prop) c i :
  P (EInvoke c i) -> appends P (invoke_model env c i).
Proof. intros H tr. exists [EInvoke c i]. split; auto. Qed.

Lemma appends_generate_attempt env model prompt :
  appends (internal (chain_model model)) (generate_attempt env model prompt).
Proof.
  unfold generate_attempt, invoke_chain, logger.
  apply appends_try_catch.
  - apply appends_bind; [apply appends_invoke; simpl; auto|].
    intros a. apply appends_ret.
  - intros e. destruct (is_APIError e); [|apply appends_raise].
    apply appends_bind; [apply appends_emit; exact I|]. intros _.
    apply appends_try_catch.
    + apply appends_bind; [apply appends_invoke; simpl; auto|].
      intros a. apply appends_ret.
    + intros b. destruct (is_Exception b); [|apply appends_raise].
      apply appends_bind; [apply appends_emit; exact I|]. intros _.
      apply appends_raise.
Qed.

Lemma appends_generate_with_retry env model prompt :
  appends (internal (chain_model model)) (generate_with_retry env model prompt).
Proof.
  unfold generate_with_retry, generate_with_budget, Tenacity.retry.
  apply appends_retrying.
  - apply appends_generate_attempt.
  - intros d. exact I.
Qed.

Lemma appends_format_code env primary code language :
  appends (internal primary) (format_code env code language).
Proof.
  unfold format_code, logger. apply appends_try_catch.
  - destruct (str_eqb (lower env language) (lit "python")); [|apply appends_ret].
    apply appends_bind.
    { apply appends_bind; [apply appends_emit; exact I|].
      intros _. apply appends_lift. }
    intros f. apply appends_bind; [|intros g; apply appends_ret].
    apply appends_bind; [apply appends_emit; exact I|].
    intros _. apply appends_lift.
  - intros e. destruct (is_Exception e); [|apply appends_raise].
    apply appends_bind; [apply appends_emit; exact I|]. intros _.
    apply appends_ret.
Qed.

Lemma internal_progress primary ext :
  Forall (internal primary) ext -> progress_of ext = [].
Proof.
  induction 1 as [|ev ext Hev _ IH]; auto.
  destruct ev; simpl in *; auto; contradiction.
Qed.

Lemma internal_calls primary c ext :
  Forall (internal primary) ext -> c <> primary -> c <> BackupModel ->
  calls_to c ext = 0.
Proof.
  intros H Hc Hb. unfold calls_to.
  induction H as [|ev ext Hev _ IH]; auto.
  destruct ev; simpl in *; auto.
  rewrite client_eqb_neq; auto.
  destruct Hev; congruence.
Qed.

(** A run of [c] that only adds internal events leaves the progress
    shown and the calls of the other models as they were. *)
Lemma appends_frame {A} primary (c : M A) tr r tr' :
  appends (internal primary) c -> c tr = (r, tr') ->
  progress_of tr' = progress_of tr
  /\ forall c', c' <> primary -> c' <> BackupModel ->
                calls_to c' tr' = calls_to c' tr.
Proof.
  intros Hc Hrun. destruct (Hc tr) as (ext & Hext & HP).
  rewrite Hrun in Hext. simpl in Hext. subst tr'. split.
  - now rewrite progress_of_app, (internal_progress _ _ HP), app_nil_r.
  - intros c' H1 H2.
    rewrite calls_to_app, (internal_calls _ _ _ HP H1 H2). lia.
Qed.

(* ================================================================== *)
(** ** The pipeline, stage by stage *)

Lemma ret_bind {A B} (a : A) (k : A -> M B) tr : bind (ret a) k tr = k a tr.
Proof. reflexivity. Qed.

Lemma raise_bind {A B} e (k : A -> M B) tr : bind (raise e) k tr = (Raise e, tr).
Proof. reflexivity. Qed.

Ltac says := repeat first [rewrite say_then | rewrite bind_assoc].

Ltac run_gwr b e tr' E :=
  match goal with
  | |- context [bind (generate_with_retry ?env ?ch ?p) ?k ?tr] =>
      destruct (generate_with_retry env ch p tr) as [[b|e] tr'] eqn:E;
      [ repeat rewrite (bind_ok _ _ _ _ _ E)
      | repeat rewrite (bind_raise _ _ _ _ _ E) ]
  end.

Lemma generate_technical_content_staged env topic pcb lcb tr :
  generate_technical_content env topic pcb lcb tr
  = (b <- research_stage env topic pcb lcb ;;
     f <- draft_stage env pcb lcb b ;;
     c <- code_stage env topic pcb lcb ;;
     final_stage env pcb lcb b f c) tr.
Proof.
  unfold generate_technical_content, research_stage.
  says. run_gwr b e tr1 E1; [|reflexivity].
  unfold draft_stage. says.
  destruct b as [research|s]; cbn [get_content];
    rewrite ?ret_bind, ?raise_bind; [|reflexivity].
  run_gwr f e tr2 E2; [|reflexivity].
  unfold code_stage. says.
  run_gwr c e tr3 E3; [|reflexivity].
  unfold final_stage. says.
  reflexivity.
Qed.

Lemma research_stage_frame env topic pcb lcb tr r tr' :
  research_stage env topic pcb lcb tr = (r, tr') ->
  progress_of tr' = progress_of tr ++ shown pcb [0%Z]
  /\ calls_to CreativeModel tr' = calls_to CreativeModel tr
  /\ calls_to CodeModel tr' = calls_to CodeModel tr.
Proof.
  unfold research_stage. says. intros H.
  apply (appends_frame ResearchModel) in H as [Hp Hc];
    [|apply (appends_generate_with_retry env (research_chain topic))].
  rewrite Hp, !Hc by discriminate.
  rewrite progress_of_app, !calls_to_app, progress_of_say, !calls_to_say.
  repeat split; lia.
Qed.

Lemma draft_stage_frame env pcb lcb b tr r tr' :
  draft_stage env pcb lcb b tr = (r, tr') ->
  progress_of tr' = progress_of tr ++ shown pcb [25; 25]%Z
  /\ calls_to CodeModel tr' = calls_to CodeModel tr.
Proof.
  unfold draft_stage. says. intros H.
  assert (Hsay : progress_of tr' = progress_of tr ++ shown pcb [25; 25]%Z
                 /\ calls_to CodeModel tr' = calls_to CodeModel tr
          <-> progress_of tr'
              = progress_of
                  ((tr ++ say_events pcb lcb (lit "Research phase completed")
                            (Some 25%Z))
                   ++ say_events pcb lcb
                        (lit "Starting creative content development")
                        (Some 25%Z))
              /\ calls_to CodeModel tr'
                 = calls_to CodeModel
                     ((tr ++ say_events pcb lcb (lit "Research phase completed")
                               (Some 25%Z))
                      ++ say_events pcb lcb
                           (lit "Starting creative content development")
                           (Some 25%Z))).
  { rewrite !progress_of_app, !calls_to_app, !progress_of_say, !calls_to_say.
    rewrite <- app_assoc, !Nat.add_0_r. now destruct pcb. }
  apply Hsay. clear Hsay.
  destruct b as [research|s]; cbn [get_content] in H;
    rewrite ?ret_bind, ?raise_bind in H.
  - apply (appends_frame CreativeModel) in H as [Hp Hc];
      [|apply (appends_generate_with_retry env (creative_chain research))].
    split; [exact Hp | apply Hc; discriminate].
  - inversion H; subst. auto.
Qed.

Lemma code_stage_frame env topic pcb lcb tr r tr' :
  code_stage env topic pcb lcb tr = (r, tr') ->
  progress_of tr' = progress_of tr ++ shown pcb [50; 50]%Z.
Proof.
  unfold code_stage. says. intros H.
  apply (appends_frame CodeModel) in H as [Hp _];
    [|apply (appends_generate_with_retry env (code_chain topic))].
  rewrite Hp, !progress_of_app, !progress_of_say.
  rewrite <- app_assoc. now destruct pcb.
Qed.

Lemma final_stage_frame env pcb lcb b f c tr r tr' :
  final_stage env pcb lcb b f c tr = (r, tr') ->
  match r with
  | Ok rep =>
      progress_of tr' = progress_of tr ++ shown pcb [75; 75; 100]%Z
      /\ language (code_example_of rep) = lit "python"
      /\ explanation (code_example_of rep)
         = lit "Code example generated for the given topic"
  | Raise _ =>
      progress_of tr' = progress_of tr ++ shown pcb [75; 75]%Z
      \/ progress_of tr' = progress_of tr ++ shown pcb [75; 75; 100]%Z
  end.
Proof.
  unfold final_stage. says.
  set (tr1 := (tr ++ say_events pcb lcb (lit "Code example generation completed")
                       (Some 75%Z))
              ++ say_events pcb lcb (lit "Extracting and formatting code")
                   (Some 75%Z)).
  assert (H1 : progress_of tr1 = progress_of tr ++ shown pcb [75; 75]%Z).
  { unfold tr1. rewrite !progress_of_app, !progress_of_say, <- app_assoc.
    now destruct pcb. }
  clearbody tr1.
  destruct c as [content|s]; cbn [extract_code_block_of];
    rewrite ?ret_bind, ?raise_bind.
  { intros H. inversion H; subst. auto. }
  destruct (format_code env (extract_code_block s) (lit "python") tr1)
    as [[formatted_code|e] tr2] eqn:EF.
  2:{ rewrite (bind_raise _ _ _ _ _ EF). intros H. inversion H; subst.
      apply (appends_frame CodeModel) in EF as [Hp _];
        [|apply appends_format_code].
      left. congruence. }
  rewrite (bind_ok _ _ _ _ _ EF). says.
  apply (appends_frame CodeModel) in EF as [Hp _]; [|apply appends_format_code].
  set (tr3 := tr2 ++ say_events pcb lcb (lit "Content generation completed")
                       (Some 100%Z)).
  assert (H3 : progress_of tr3 = progress_of tr ++ shown pcb [75; 75; 100]%Z).
  { unfold tr3. rewrite progress_of_app, progress_of_say, Hp, H1, <- app_assoc.
    now destruct pcb. }
  clearbody tr3.
  destruct b as [structure|s1]; cbn [get_content];
    rewrite ?ret_bind, ?raise_bind.
  2:{ intros H. inversion H; subst. auto. }
  destruct f as [blog|s2]; cbn [get_content];
    rewrite ?ret_bind, ?raise_bind.
  2:{ intros H. inversion H; subst. auto. }
  intros H. inversion H; subst. simpl. auto.
Qed.

(* ================================================================== *)
(** ** Whole runs *)

(** How a run of [generate_technical_content] from the empty trace can
    end, with the percentages shown in each case. *)
Lemma run_cases env topic pcb lcb r tr :
  generate_technical_content env topic pcb lcb [] = (r, tr) ->
  (exists e, r = Raise e
             /\ research_stage env topic pcb lcb [] = (Raise e, tr)
             /\ progress_of tr = shown pcb [0]%Z
             /\ calls_to CreativeModel tr = 0 /\ calls_to CodeModel tr = 0)
  \/ (exists b tr1,
         research_stage env topic pcb lcb [] = (Ok b, tr1)
         /\ ((exists e, r = Raise e
                        /\ draft_stage env pcb lcb b tr1 = (Raise e, tr)
                        /\ progress_of tr = shown pcb [0; 25; 25]%Z
                        /\ calls_to CodeModel tr = 0)
             \/ (exists f tr2,
                    draft_stage env pcb lcb b tr1 = (Ok f, tr2)
                    /\ ((exists e, r = Raise e
                                   /\ progress_of tr
                                      = shown pcb [0; 25; 25; 50; 50]%Z)
                        \/ (exists e, r = Raise e
                                      /\ progress_of tr
                                         = shown pcb [0; 25; 25; 50; 50; 75; 75]%Z)
                        \/ (progress_of tr = shown pcb full_progress
                            /\ forall rep, r = Ok rep ->
                                language (code_example_of rep) = lit "python"
                                /\ explanation (code_example_of rep)
                                   = lit "Code example generated for the given topic"))))).
Proof.
  rewrite generate_technical_content_staged. intros H.
  destruct (research_stage env topic pcb lcb []) as [[b|e] tr1] eqn:ER.
  2:{ rewrite (bind_raise _ _ _ _ _ ER) in H. inversion H; subst.
      apply research_stage_frame in ER as (Hp & Hc1 & Hc2).
      left. exists e. repeat split; auto. }
  rewrite (bind_ok _ _ _ _ _ ER) in H.
  right. exists b, tr1. split; [reflexivity|].
  apply research_stage_frame in ER as (Hp1 & _ & Hc1).
  destruct (draft_stage env pcb lcb b tr1) as [[f|e] tr2] eqn:ED.
  2:{ rewrite (bind_raise _ _ _ _ _ ED) in H. inversion H; subst.
      apply draft_stage_frame in ED as (Hp & Hc).
      left. exists e. repeat split; auto.
      - rewrite Hp, Hp1. now destruct pcb.
      - now rewrite Hc, Hc1. }
  rewrite (bind_ok _ _ _ _ _ ED) in H.
  right. exists f, tr2. split; [reflexivity|].
  apply draft_stage_frame in ED as (Hp2 & _).
  destruct (code_stage env topic pcb lcb tr2) as [[c|e] tr3] eqn:EC.
  2:{ rewrite (bind_raise _ _ _ _ _ EC) in H. inversion H; subst.
      apply code_stage_frame in EC.
      left. exists e. split; auto.
      rewrite EC, Hp2, Hp1. now destruct pcb. }
  rewrite (bind_ok _ _ _ _ _ EC) in H.
  apply code_stage_frame in EC.
  apply final_stage_frame in H.
  destruct r as [rep|e].
  - destruct H as (Hp & Hl & Hx). right. right. split.
    + rewrite Hp, EC, Hp2, Hp1. now destruct pcb.
    + intros rep' Hr. inversion Hr; subst. auto.
  - destruct H as [Hp | Hp].
    + right. left. exists e. split; auto.
      rewrite Hp, EC, Hp2, Hp1. now destruct pcb.
    + right. right. split.
      * rewrite Hp, EC, Hp2, Hp1. now destruct pcb.
      * intros rep Hr. discriminate Hr.
Qed.




Lemma shown_prefix pcb k :
  exists j, shown pcb (firstn k full_progress) = firstn j full_progress.
Proof. destruct pcb; [now exists k | now exists 0]. Qed.

(** C8 (amended): in every run, successful or not, the percentages
    given to the progress callback are a prefix of
    0, 25, 25, 50, 50, 75, 75, 100: they never decrease and all lie in
    {0, 25, 50, 75, 100}.  A successful run with a progress callback
    delivers exactly these eight values, each of 25, 50 and 75 twice;
    with repeats merged they read 0, 25, 50, 75, 100.  Without a
    progress callback nothing is delivered. *)
Theorem progress_sequence env topic pcb lcb r tr :
  generate_technical_content env topic pcb lcb [] = (r, tr) ->
  (exists k, progress_of tr = firstn k full_progress)
  /\ nondecreasing (progress_of tr) = true
  /\ Forall (fun p => In p [0; 25; 50; 75; 100]%Z) (progress_of tr)
  /\ (forall rep cb, r = Ok rep -> pcb = Some cb ->
        progress_of tr = full_progress
        /\ distinct_runs (progress_of tr) = [0; 25; 50; 75; 100]%Z)
  /\ (pcb = None -> progress_of tr = []).
Proof.
  intros H. apply run_cases in H.
  assert (Hk : exists k, progress_of tr = shown pcb (firstn k full_progress)
                         /\ (forall rep, r = Ok rep -> 8 <= k)).
  { destruct H as [(e & Hr & _ & Hp & _) | (b & tr1 & _ & H)].
    { exists 1. split; [exact Hp | congruence]. }
    destruct H as [(e & Hr & _ & Hp & _) | (f & tr2 & _ & H)].
    { exists 3. split; [exact Hp | congruence]. }
    destruct H as [(e & Hr & Hp) | [(e & Hr & Hp) | (Hp & _)]].
    - exists 5. split; [exact Hp | congruence].
    - exists 7. split; [exact Hp | congruence].
    - exists 8. split; [exact Hp | auto]. }
  clear H. destruct Hk as (k & Hp & Hok). rewrite Hp.
  split; [apply shown_prefix|].
  split; [|split; [|split]].
  - destruct pcb; [|reflexivity].
    do 9 (destruct k as [|k]; [reflexivity|]). reflexivity.
  - destruct pcb; [|constructor].
    do 9 (destruct k as [|k];
          [repeat constructor; simpl; tauto|]).
    repeat constructor; simpl; tauto.
  - intros rep cb Hr ->. specialize (Hok rep Hr).
    do 8 (destruct k as [|k]; [lia|]).
    destruct k; split; reflexivity.
  - intros ->. reflexivity.
Qed.

(** The end-to-end example of the specification. *)
Lemma progress_sequence_witness :
  progress_of (snd (generate_technical_content happy_env (lit "topic")
                      (Some Callable) None []))
  = [0; 25; 25; 50; 50; 75; 75; 100]%Z
  /\ distinct_runs
       (progress_of (snd (generate_technical_content happy_env (lit "topic")
                            (Some Callable) None [])))
     = [0; 25; 50; 75; 100]%Z.
Proof.
  destruct (progress_sequence happy_env (lit "topic") (Some Callable) None
              (fst (generate_technical_content happy_env (lit "topic")
                      (Some Callable) None []))
              (snd (generate_technical_content happy_env (lit "topic")
                      (Some Callable) None [])))
    as (_ & _ & _ & H & _).
  - vm_compute. reflexivity.
  - eapply H; [vm_compute|]; reflexivity.
Defined.

(** C8, as stated, fails on its last part: the successful run of the
    specification's own example delivers eight progress events, not
    five. *)
Lemma progress_events_repeat :
  (exists rep,
      fst (generate_technical_content happy_env (lit "topic")
             (Some Callable) None []) = Ok rep)
  /\ progress_of (snd (generate_technical_content happy_env (lit "topic")
                         (Some Callable) None []))
     = [0; 25; 25; 50; 50; 75; 75; 100]%Z
  /\ progress_of (snd (generate_technical_content happy_env (lit "topic")
                         (Some Callable) None []))
     <> [0; 25; 50; 75; 100]%Z.
Proof.
  split; [eexists; vm_compute; reflexivity|].
  split; [vm_compute; reflexivity|].
  vm_compute. discriminate.
Qed.

(** C9: whatever the topic and whatever the models answer, the report
    of a run that returns one has [language = "python"] and the fixed
    [explanation]. *)
Theorem report_constants env topic pcb lcb rep tr :
  generate_technical_content env topic pcb lcb [] = (Ok rep, tr) ->
  language (code_example_of rep) = lit "python"
  /\ explanation (code_example_of rep)
     = lit "Code example generated for the given topic".
Proof.
  intros H. apply run_cases in H.
  destruct H as [(e & Hr & _) | (b & tr1 & _ & H)]; [discriminate|].
  destruct H as [(e & Hr & _) | (f & tr2 & _ & H)]; [discriminate|].
  destruct H as [(e & Hr & _) | [(e & Hr & _) | (_ & H)]];
    try discriminate.
  now apply H.
Qed.

(** The end-to-end example again: its report carries the constants. *)
Lemma report_constants_witness :
  exists rep tr,
    generate_technical_content happy_env (lit "topic") (Some Callable) None []
    = (Ok rep, tr)
    /\ original (code_example_of rep) = lit "print(1)"
    /\ language (code_example_of rep) = lit "python"
    /\ explanation (code_example_of rep)
       = lit "Code example generated for the given topic".
Proof.
  eexists. eexists. split; [vm_compute; reflexivity|].
  split; [reflexivity|].
  eapply (report_constants happy_env (lit "topic") (Some Callable) None).
  vm_compute. reflexivity.
Defined.

(* ================================================================== *)
(** ** More on generate_with_retry *)

Lemma not_Exception_not_APIError e : is_Exception e = false -> is_APIError e = false.
Proof.
  intros H. destruct (is_APIError e) eqn:E; auto.
  apply APIError_is_Exception in E. congruence.
Qed.

Lemma attempt_backup_interrupted env model prompt tr e backup_error :
  reply env tr (chain_model model) (chain_messages model) = Raise e ->
  is_APIError e = true ->
  reply env (tr ++ [EInvoke (chain_model model) (chain_messages model);
                    ELogger Warning (primary_failed_message e)])
        BackupModel prompt = Raise backup_error ->
  is_Exception backup_error = false ->
  generate_attempt env model prompt tr
  = (Raise backup_error,
     tr ++ [EInvoke (chain_model model) (chain_messages model);
            ELogger Warning (primary_failed_message e);
            EInvoke BackupModel prompt]).
Proof.
  intros H Hc Hb He.
  unfold generate_attempt, try_catch, invoke_chain, bind, invoke_model,
    logger, emit, ret, raise.
  rewrite H, Hc.
  rewrite <- !app_assoc. cbn [app]. rewrite Hb, He.
  reflexivity.
Qed.

Lemma appends_generate_attempt_events env model prompt :
  appends (retry_event model prompt) (generate_attempt env model prompt).
Proof.
  unfold generate_attempt, invoke_chain, logger.
  apply appends_try_catch.
  - apply appends_bind; [apply appends_invoke; simpl; auto|].
    intros a. apply appends_ret.
  - intros e. destruct (is_APIError e); [|apply appends_raise].
    apply appends_bind; [apply appends_emit; exact I|]. intros _.
    apply appends_try_catch.
    + apply appends_bind; [apply appends_invoke; simpl; auto|].
      intros a. apply appends_ret.
    + intros b. destruct (is_Exception b); [|apply appends_raise].
      apply appends_bind; [apply appends_emit; exact I|]. intros _.
      apply appends_raise.
Qed.

Lemma appends_generate_with_budget_events env n model prompt :
  appends (retry_event model prompt) (generate_with_budget env n model prompt).
Proof.
  unfold generate_with_budget, Tenacity.retry.
  apply appends_retrying.
  - apply appends_generate_attempt_events.
  - intros d. exact I.
Qed.

(** One attempt calls the primary once and the backup at most once, and
    does not sleep. *)
Lemma attempt_shape env model prompt tr :
  chain_model model <> BackupModel ->
  exists r a,
    generate_attempt env model prompt tr = (r, tr ++ a)
    /\ calls_to (chain_model model) a = 1
    /\ calls_to BackupModel a <= 1
    /\ sleeps_of a = [].
Proof.
  intros Hne.
  assert (Hp : client_eqb (chain_model model) (chain_model model) = true)
    by apply client_eqb_refl.
  assert (Hpb : client_eqb (chain_model model) BackupModel = false)
    by (apply client_eqb_neq; assumption).
  assert (Hbp : client_eqb BackupModel (chain_model model) = false)
    by (apply client_eqb_neq; congruence).
  destruct (reply env tr (chain_model model) (chain_messages model))
    as [content|e] eqn:E.
  { eexists; eexists. split; [apply (attempt_primary_ok _ _ _ _ _ E)|].
    unfold calls_to. cbn [invocations filter]. rewrite ?Hp, ?Hbp, ?Hpb. simpl. repeat split; lia. }
  destruct (is_APIError e) eqn:Ec.
  2:{ eexists; eexists. split; [apply (attempt_uncaught _ _ _ _ _ E Ec)|].
      unfold calls_to. cbn [invocations filter]. rewrite ?Hp, ?Hbp, ?Hpb. simpl. repeat split; lia. }
  destruct (reply env (tr ++ [EInvoke (chain_model model) (chain_messages model);
                              ELogger Warning (primary_failed_message e)])
                  BackupModel prompt) as [content|eb] eqn:Eb.
  { eexists; eexists. split; [apply (attempt_backup_ok _ _ _ _ _ _ E Ec Eb)|].
    unfold calls_to. cbn [invocations filter]. rewrite ?Hp, ?Hbp, ?Hpb. simpl. repeat split; lia. }
  destruct (is_Exception eb) eqn:Ex.
  - eexists; eexists.
    split; [apply (attempt_backup_fails _ _ _ _ _ _ E Ec Eb Ex)|].
    unfold calls_to. cbn [invocations filter]. rewrite ?Hp, ?Hbp, ?Hpb. simpl. repeat split; lia.
  - eexists; eexists.
    split; [apply (attempt_backup_interrupted _ _ _ _ _ _ E Ec Eb Ex)|].
    unfold calls_to. cbn [invocations filter]. rewrite ?Hp, ?Hbp, ?Hpb. simpl. repeat split; lia.
Qed.

Lemma retrying_shape env model prompt :
  chain_model model <> BackupModel ->
  forall r k tr, exists res ext j,
    Tenacity.retrying backoff r k (generate_attempt env model prompt) tr
    = (res, tr ++ ext)
    /\ j <= r
    /\ calls_to (chain_model model) ext = S j
    /\ calls_to BackupModel ext <= S j
    /\ sleeps_of ext = map backoff (seq k j).
Proof.
  intros Hne. induction r as [|r IH]; intros k tr;
    destruct (attempt_shape env model prompt tr Hne)
      as (res & a & Ha & Hp & Hb & Hs);
    cbn [Tenacity.retrying]; unfold try_catch at 1; rewrite Ha.
  - exists res, a, 0.
    destruct res as [v|e]; [|destruct (is_Exception e)];
      repeat split; auto.
  - destruct res as [v|e].
    { exists (Ok v), a, 0. repeat split; auto; lia. }
    destruct (is_Exception e).
    2:{ exists (Raise e), a, 0. repeat split; auto; lia. }
    destruct (IH (S k) ((tr ++ a) ++ [ESleep (backoff k)]))
      as (res' & ext & j & Hrun & Hj & Hp' & Hb' & Hs').
    exists res', (a ++ [ESleep (backoff k)] ++ ext), (S j).
    unfold bind at 1, emit at 1. rewrite Hrun.
    repeat split.
    + now rewrite <- !app_assoc.
    + lia.
    + rewrite !calls_to_app, Hp, Hp'. unfold calls_to at 1. simpl. lia.
    + rewrite !calls_to_app. unfold calls_to at 2. simpl. lia.
    + rewrite !sleeps_of_app, Hs, Hs'. reflexivity.
Qed.

Lemma generate_with_retry_shape env model prompt tr :
  chain_model model <> BackupModel ->
  exists res ext attempts,
    generate_with_retry env model prompt tr = (res, tr ++ ext)
    /\ 1 <= attempts <= 3
    /\ calls_to (chain_model model) ext = attempts
    /\ calls_to BackupModel ext <= attempts
    /\ sleeps_of ext = repeat 4%Z (attempts - 1)
    /\ Forall (retry_event model prompt) ext.
Proof.
  intros Hne.
  destruct (retrying_shape env model prompt Hne 2 1 tr)
    as (res & ext & j & Hrun & Hj & Hp & Hb & Hs).
  exists res, ext, (S j).
  unfold generate_with_retry, generate_with_budget, Tenacity.retry.
  change (3 - 1) with 2. rewrite Hrun.
  repeat split; auto; try lia.
  - rewrite Hs. replace (S j - 1) with j by lia.
    destruct j as [|[|[|j]]]; try reflexivity; lia.
  - destruct (appends_generate_with_budget_events env 3 model prompt tr)
      as (ext' & Hext & HP).
    unfold generate_with_budget, Tenacity.retry in Hext.
    change (3 - 1) with 2 in Hext. rewrite Hrun in Hext. simpl in Hext.
    apply app_inv_head in Hext. now subst ext'.
Qed.

(** X1: whatever the models do, [generate_with_retry] makes between one
    and three attempts; every attempt calls the primary model exactly
    once, with the chain's messages, and the backup model at most once;
    it sleeps 4 seconds between two attempts and nothing else happens
    but warning and error log lines. *)
Theorem generate_with_retry_bounds env model prompt tr :
  chain_model model <> BackupModel ->
  exists res ext attempts,
    generate_with_retry env model prompt tr = (res, tr ++ ext)
    /\ 1 <= attempts <= 3
    /\ calls_to (chain_model model) ext = attempts
    /\ calls_to BackupModel ext <= attempts
    /\ sleeps_of ext = repeat 4%Z (attempts - 1)
    /\ Forall (retry_event model prompt) ext.
Proof. apply generate_with_retry_shape. Qed.

(** With every model rate limited the bounds are reached. *)
Lemma generate_with_retry_bounds_witness :
  exists res ext,
    generate_with_retry rate_limited_env (research_chain (lit "topic"))
                        EmptyDict [] = (res, [] ++ ext)
    /\ calls_to ResearchModel ext <= 3
    /\ calls_to BackupModel ext <= 3
    /\ List.length (sleeps_of ext) <= 2.
Proof.
  destruct (generate_with_retry_bounds rate_limited_env
              (research_chain (lit "topic")) EmptyDict [])
    as (res & ext & n & Hrun & Hn & Hp & Hb & Hs & _).
  - discriminate.
  - exists res, ext. split; [exact Hrun|].
    cbn [chain_model research_chain] in Hp.
    rewrite Hs, repeat_length. repeat split; lia.
Defined.

(** X2: failures that pass are absorbed.  If the primary model raises
    an error outside [anthropic.APIError] on its next [k] calls and
    answers the call after, and [k] is below the attempt budget, the
    answer is returned after exactly [k + 1] calls, all of the primary
    model, and [k] backoff sleeps. *)
Theorem generate_with_budget_recovers env N model prompt content k : forall tr,
  k < N ->
  (forall t, calls_to (chain_model model) t < calls_to (chain_model model) tr + k ->
             exists e,
               reply env t (chain_model model) (chain_messages model) = Raise e
               /\ is_APIError e = false /\ is_Exception e = true) ->
  (forall t, calls_to (chain_model model) t = calls_to (chain_model model) tr + k ->
             reply env t (chain_model model) (chain_messages model) = Ok content) ->
  exists ext,
    generate_with_budget env N model prompt tr
    = (Ok (if chain_str_parser model then PyStr content else AIMessage content),
       tr ++ ext)
    /\ invocations ext = repeat (chain_model model) (S k)
    /\ sleeps_of ext = map backoff (seq 1 k).
Proof.
  unfold generate_with_budget, Tenacity.retry. intros tr Hk.
  assert (Hr : k <= N - 1) by lia. revert Hr.
  generalize (N - 1) as r. generalize 1 as a. clear Hk.
  revert tr. induction k as [|k IH]; intros tr a r Hr Hfail Hok.
  - exists [EInvoke (chain_model model) (chain_messages model)].
    rewrite Nat.add_0_r in Hok.
    destruct r; cbn [Tenacity.retrying]; unfold try_catch;
      rewrite (attempt_primary_ok env model prompt tr content (Hok tr eq_refl));
      repeat split.
  - destruct r as [|r]; [lia|].
    destruct (Hfail tr) as (e & He & Hc & Hx); [lia|].
    assert (Hcount : calls_to (chain_model model)
                       ((tr ++ [EInvoke (chain_model model) (chain_messages model)])
                        ++ [ESleep (backoff a)])
                     = S (calls_to (chain_model model) tr)).
    { rewrite !calls_to_app. unfold calls_to at 2 3. cbn.
      rewrite client_eqb_refl. cbn. lia. }
    destruct (IH ((tr ++ [EInvoke (chain_model model) (chain_messages model)])
                  ++ [ESleep (backoff a)]) (S a) r) as (ext & Hrun & Hinv & Hsl).
    + lia.
    + intros t Ht. apply Hfail. rewrite Hcount in Ht. lia.
    + intros t Ht. apply Hok. rewrite Hcount in Ht. lia.
    + exists ([EInvoke (chain_model model) (chain_messages model)]
              ++ [ESleep (backoff a)] ++ ext).
      cbn [Tenacity.retrying]. unfold try_catch at 1.
      rewrite (attempt_uncaught env model prompt tr e He Hc), Hx.
      unfold bind at 1, emit at 1. rewrite Hrun.
      repeat split.
      * now rewrite <- !app_assoc.
      * cbn [app invocations]. now rewrite Hinv.
      * cbn [app sleeps_of]. rewrite Hsl. reflexivity.
Qed.

(** Two timeouts, then an answer, under the budget of three. *)
Lemma generate_with_budget_recovers_witness :
  exists ext,
    generate_with_budget (flaky_env 2) 3 (research_chain (lit "topic"))
                         EmptyDict []
    = (Ok (AIMessage (lit "R")), [] ++ ext)
    /\ invocations ext = [ResearchModel; ResearchModel; ResearchModel]
    /\ sleeps_of ext = [4; 4]%Z.
Proof.
  destruct (generate_with_budget_recovers (flaky_env 2) 3
              (research_chain (lit "topic")) EmptyDict (lit "R") 2 [])
    as (ext & Hrun & Hinv & Hsl).
  - lia.
  - intros t Ht. eexists. cbn [reply flaky_env chain_model research_chain] in *.
    cbn [calls_to invocations filter List.length Nat.add] in Ht.
    destruct (Nat.ltb_spec (calls_to ResearchModel t) 2); [|lia].
    repeat split; reflexivity.
  - intros t Ht. cbn [reply flaky_env chain_model research_chain] in *.
    cbn [calls_to invocations filter List.length Nat.add] in Ht.
    destruct (Nat.ltb_spec (calls_to ResearchModel t) 2); [lia|].
    reflexivity.
  - exists ext. split; [exact Hrun|]. split; [exact Hinv | exact Hsl].
Defined.

(** X3: a [BaseException] that is not an [Exception] (a keyboard
    interrupt) raised by the primary model ends the invocation at once:
    one call, no backup call, no sleep, no retry, whatever the budget. *)
Theorem generate_with_budget_interrupted env N model prompt tr e :
  reply env tr (chain_model model) (chain_messages model) = Raise e ->
  is_Exception e = false ->
  generate_with_budget env N model prompt tr
  = (Raise e, tr ++ [EInvoke (chain_model model) (chain_messages model)]).
Proof.
  intros He Hx. unfold generate_with_budget, Tenacity.retry.
  destruct (N - 1); cbn [Tenacity.retrying]; unfold try_catch;
    rewrite (attempt_uncaught env model prompt tr e He
               (not_Exception_not_APIError e Hx)), Hx;
    reflexivity.
Qed.

Lemma generate_with_budget_interrupted_witness :
  generate_with_budget interrupted_env 3 (research_chain (lit "topic"))
                       EmptyDict []
  = (Raise (exn_of NonException "KeyboardInterrupt"),
     [EInvoke ResearchModel (chain_messages (research_chain (lit "topic")))]).
Proof.
  apply (generate_with_budget_interrupted interrupted_env 3
           (research_chain (lit "topic")) EmptyDict []
           (exn_of NonException "KeyboardInterrupt")); reflexivity.
Defined.

(** X4: the configured backoff never leaves the interval from 4 to 10
    seconds, never shrinks from one attempt to the next, is 4 seconds
    after each of the first three attempts and 10 seconds from the
    fifth attempt on. *)
Theorem backoff_range :
  (forall k, 4 <= backoff k <= 10)%Z
  /\ (forall k k', k <= k' -> (backoff k <= backoff k')%Z)
  /\ (forall k, k <= 3 -> backoff k = 4%Z)
  /\ (forall k, 5 <= k -> backoff k = 10%Z).
Proof.
  unfold backoff, Tenacity.wait_exponential.
  repeat split.
  - lia.
  - lia.
  - intros k k' H.
    assert (2 ^ Z.of_nat (k - 1) <= 2 ^ Z.of_nat (k' - 1))%Z
      by (apply Z.pow_le_mono_r; lia).
    lia.
  - intros k H. destruct k as [|[|[|[|k]]]]; try reflexivity. lia.
  - intros k H.
    assert (2 ^ 4 <= 2 ^ Z.of_nat (k - 1))%Z
      by (apply Z.pow_le_mono_r; lia).
    change (2 ^ 4)%Z with 16%Z in *. lia.
Qed.

(* ================================================================== *)
(** ** More on extract_code_block *)

Lemma strip_prefix_app_None n : forall y post,
  strip_prefix n y = None -> List.length n <= List.length y ->
  strip_prefix n (y ++ post) = None.
Proof.
  induction n as [|x n IH]; intros y post H Hlen; simpl in *.
  - discriminate.
  - destruct y as [|c y]; simpl in *; [lia|].
    destruct (char_eqb x c); auto. apply IH; auto. lia.
Qed.

Lemma strip_prefix_app_Some n y post r :
  strip_prefix n y = Some r -> strip_prefix n (y ++ post) = Some (r ++ post).
Proof.
  intros H. apply strip_prefix_sound in H. subst y.
  rewrite <- app_assoc. apply strip_prefix_app.
Qed.

Lemma strip_prefix_inside needle x post :
  x <> [] ->
  (strip_prefix needle (x ++ needle ++ post) = None
   <-> startswith (x ++ needle) needle = false).
Proof.
  intros Hx. unfold startswith. rewrite app_assoc.
  destruct (strip_prefix needle (x ++ needle)) as [r|] eqn:E.
  - rewrite (strip_prefix_app_Some _ _ post _ E). split; discriminate.
  - rewrite (strip_prefix_app_None _ _ post E).
    + tauto.
    + rewrite length_app. lia.
Qed.

Lemma free_of_suffix needle b1 b2 :
  free_of needle (b1 ++ b2) = true -> free_of needle b2 = true.
Proof.
  induction b1 as [|c b1 IH]; auto.
  cbn [app free_of]. rewrite andb_true_iff. intros [_ H]. auto.
Qed.

Lemma free_of_head needle c s post :
  free_of needle (c :: s) = true ->
  strip_prefix needle (c :: s ++ needle ++ post) = None.
Proof.
  cbn [free_of]. rewrite andb_true_iff, negb_true_iff. intros [H _].
  apply (strip_prefix_inside needle (c :: s) post); [discriminate | exact H].
Qed.

Lemma free_of_intro needle g :
  (forall b1 c b2, g = b1 ++ c :: b2 ->
                   startswith ((c :: b2) ++ needle) needle = false) ->
  free_of needle g = true.
Proof.
  induction g as [|c g IH]; intros H; auto.
  cbn [free_of]. rewrite (H [] c g eq_refl). cbn [negb andb].
  apply IH. intros b1 d b2 ->. apply (H (c :: b1) d b2). reflexivity.
Qed.

Lemma fence_free_free_of s : fence_free s = free_of fence s.
Proof. induction s as [|c s IH]; simpl; auto. now rewrite IH. Qed.

Lemma lazy_any_sound k : forall s acc g,
  Re.lazy_any k acc s = Some g ->
  exists body rest,
    s = body ++ rest /\ g = rev acc ++ body
    /\ (exists g', k rest = Some g')
    /\ (forall b1 c b2, body = b1 ++ c :: b2 -> k (c :: b2 ++ rest) = None).
Proof.
  induction s as [|c s IH]; intros acc g H; simpl in H.
  - destruct (k []) as [g'|] eqn:E; [|discriminate]. inversion H; subst.
    exists [], []. repeat split; eauto.
    + now rewrite app_nil_r.
    + intros b1 c b2 Hb. now destruct b1.
  - destruct (k (c :: s)) as [g'|] eqn:E.
    + inversion H; subst. exists [], (c :: s). repeat split; eauto.
      * now rewrite app_nil_r.
      * intros b1 d b2 Hb. now destruct b1.
    + apply IH in H as (body & rest & Hs & Hg & Hk & Hmin).
      exists (c :: body), rest. subst s. repeat split; auto.
      * rewrite Hg. simpl. now rewrite <- app_assoc.
      * intros b1 d b2 Hb. destruct b1 as [|x b1]; simpl in Hb;
          inversion Hb; subst; auto.
        apply (Hmin b1 d b2). reflexivity.
Qed.

(** The lazy group followed by a closing literal: what it captures is
    followed by the literal, and the literal does not begin inside. *)
Lemma lazy_until_sound close r g :
  Re.lazy_any (Re.match_here [Re.Lit close]) [] r = Some g ->
  exists post, r = g ++ close ++ post /\ free_of close g = true.
Proof.
  intros H. apply lazy_any_sound in H as (body & rest & Hr & Hg & [g' Hk] & Hmin).
  simpl in Hg. subst g.
  cbn [Re.match_here] in Hk.
  destruct (strip_prefix close rest) as [post|] eqn:E; [|discriminate].
  apply strip_prefix_sound in E. subst rest.
  exists post. split; auto.
  apply free_of_intro. intros b1 c b2 Hb.
  specialize (Hmin b1 c b2 Hb). cbn [Re.match_here] in Hmin.
  destruct (strip_prefix close (c :: b2 ++ close ++ post)) eqn:E; [discriminate|].
  apply (strip_prefix_inside close (c :: b2) post); [discriminate | exact E].
Qed.

Lemma lazy_until_complete close body post :
  free_of close body = true ->
  Re.lazy_any (Re.match_here [Re.Lit close]) [] (body ++ close ++ post) = Some body.
Proof.
  intros Hb.
  apply (lazy_any_shortest (Re.match_here [Re.Lit close]) [] (close ++ post) body []).
  - cbn [Re.match_here]. now rewrite strip_prefix_app.
  - intros b1 c b2 ->. cbn [Re.match_here].
    now rewrite (free_of_head close c b2 post (free_of_suffix close b1 _ Hb)).
Qed.

Lemma search_sound p : forall s g,
  Re.search p s = Some g ->
  exists pre rest, s = pre ++ rest /\ Re.match_here p rest = Some g.
Proof.
  induction s as [|c s IH]; intros g H; simpl in H.
  - destruct (Re.match_here p []) eqn:E; [|discriminate].
    inversion H; subst. now exists [], [].
  - destruct (Re.match_here p (c :: s)) eqn:E.
    + inversion H; subst. now exists [], (c :: s).
    + apply IH in H as (pre & rest & -> & Hm). now exists (c :: pre), rest.
Qed.

Lemma search_skip l p pre s :
  free_of l pre = true ->
  Re.search (Re.Lit l :: p) (pre ++ l ++ s) = Re.search (Re.Lit l :: p) (l ++ s).
Proof.
  induction pre as [|c pre IH]; auto. intros H.
  change ((c :: pre) ++ l ++ s) with (c :: pre ++ l ++ s).
  cbn [Re.search Re.match_here].
  rewrite (free_of_head l c pre s H).
  apply IH. apply (free_of_suffix l [c] pre H).
Qed.

Lemma search_found p s g :
  Re.match_here p s = Some g -> Re.search p s = Some g.
Proof. intros H. destruct s; cbn [Re.search]; now rewrite H. Qed.

Lemma match_fenced_tail_sound r g :
  Re.match_here [Re.Lit nl; Re.LazyAny; Re.Lit fence] r = Some g ->
  exists post, r = nl ++ g ++ fence ++ post /\ fence_free g = true.
Proof.
  intros H. cbn [Re.match_here] in H.
  destruct (strip_prefix nl r) as [r'|] eqn:E; [|discriminate].
  apply strip_prefix_sound in E. subst r.
  apply lazy_until_sound in H as (post & -> & Hf).
  exists post. split; auto. now rewrite fence_free_free_of.
Qed.

Lemma match_fenced_sound s g :
  Re.match_here fenced_pattern s = Some g ->
  exists tag post,
    s = fence ++ tag ++ nl ++ g ++ fence ++ post
    /\ (tag = [] \/ tag = lit "python")
    /\ fence_free g = true.
Proof.
  unfold fenced_pattern. rewrite match_here_Lit. intros H.
  destruct (strip_prefix fence s) as [r|] eqn:E; [|discriminate].
  apply strip_prefix_sound in E. subst s.
  rewrite match_here_OptLit in H.
  destruct (strip_prefix (lit "python") r) as [r1|] eqn:Ep.
  - destruct (Re.match_here [Re.Lit nl; Re.LazyAny; Re.Lit fence] r1)
      as [g1|] eqn:E1.
    + assert (g1 = g) by congruence. subst g1.
      apply strip_prefix_sound in Ep. subst r.
      apply match_fenced_tail_sound in E1 as (post & -> & Hf).
      exists (lit "python"), post. auto.
    + apply match_fenced_tail_sound in H as (post & Hr & Hf).
      exists [], post. rewrite Hr. auto.
  - apply match_fenced_tail_sound in H as (post & -> & Hf).
    exists [], post. auto.
Qed.

Lemma match_marker_sound s g :
  Re.match_here marker_pattern s = Some g ->
  exists post,
    s = lit "<code>" ++ g ++ lit "</code>" ++ post
    /\ free_of (lit "</code>") g = true.
Proof.
  unfold marker_pattern. cbn [Re.match_here]. intros H.
  destruct (strip_prefix (lit "<code>") s) as [r|] eqn:E; [|discriminate].
  apply strip_prefix_sound in E. subst s.
  apply lazy_until_sound in H as (post & -> & Hf).
  now exists post.
Qed.

(** X5: what a delimiter heuristic captures is really delimited in the
    text.  A fenced capture stands between an opening fence, followed by
    a newline or by [python] and a newline, and a closing fence, and no
    triple backtick begins inside it; a [<code>] capture is used only
    when no fenced block matched, stands between [<code>] and
    [</code>], and no [</code>] begins inside it. *)
Theorem first_capture_delimited model_output g :
  first_capture model_output = Some g ->
  (exists pre tag post,
      model_output = pre ++ fence ++ tag ++ nl ++ g ++ fence ++ post
      /\ (tag = [] \/ tag = lit "python")
      /\ fence_free g = true)
  \/ (Re.search fenced_pattern model_output = None
      /\ exists pre post,
          model_output = pre ++ lit "<code>" ++ g ++ lit "</code>" ++ post
          /\ free_of (lit "</code>") g = true).
Proof.
  unfold first_capture.
  destruct (Re.search fenced_pattern model_output) as [g1|] eqn:E1; intros H.
  - assert (g1 = g) by congruence. subst g1. left.
    apply search_sound in E1 as (pre & rest & -> & Hm).
    apply match_fenced_sound in Hm as (tag & post & -> & Ht & Hf).
    now exists pre, tag, post.
  - right. split; auto.
    apply search_sound in H as (pre & rest & -> & Hm).
    apply match_marker_sound in Hm as (post & -> & Hf).
    now exists pre, post.
Qed.

Lemma first_capture_delimited_witness :
  exists pre tag post,
    spec_example_input
    = pre ++ fence ++ tag ++ nl
      ++ (lit "def f():" ++ nl ++ lit "    return 1" ++ nl) ++ fence ++ post.
Proof.
  destruct (first_capture_delimited spec_example_input
              (lit "def f():" ++ nl ++ lit "    return 1" ++ nl))
    as [(pre & tag & post & H & _) | (H & _)].
  - reflexivity.
  - exists pre, tag, post. exact H.
  - discriminate H.
Defined.

(** X6: the [<code>] heuristic.  In a text without any triple backtick,
    where no [<code>] begins before the opening marker and no [</code>]
    begins inside the body, the extractor returns the body between the
    first [<code>] and the next [</code>], trimmed, whatever follows. *)
Theorem extract_code_block_marker pre body post :
  contains fence (pre ++ lit "<code>" ++ body ++ lit "</code>" ++ post) = false ->
  free_of (lit "<code>") pre = true ->
  free_of (lit "</code>") body = true ->
  extract_code_block (pre ++ lit "<code>" ++ body ++ lit "</code>" ++ post)
  = strip body.
Proof.
  intros Hf Hpre Hbody. unfold extract_code_block.
  unfold fenced_pattern. rewrite (contains_false_search _ _ _ Hf).
  unfold marker_pattern. rewrite search_skip by assumption.
  rewrite (search_found _ _ body); auto.
  cbn [Re.match_here]. rewrite strip_prefix_app.
  now apply lazy_until_complete.
Qed.

Lemma extract_code_block_marker_witness :
  extract_code_block
    (lit "Use <code> x = 1 </code> or <code>y</code>.")
  = lit "x = 1".
Proof.
  apply (extract_code_block_marker (lit "Use ") (lit " x = 1 ")
           (lit " or <code>y</code>.")); reflexivity.
Defined.

Lemma lstrip_suffix s : exists pre, s = pre ++ lstrip s.
Proof.
  induction s as [|c s [pre IH]]; simpl.
  - now exists [].
  - destruct (isspace c).
    + exists (c :: pre). simpl. now rewrite <- IH.
    + now exists [].
Qed.

Lemma strip_part_of s : part_of (strip s) s.
Proof.
  unfold strip, rstrip.
  destruct (lstrip_suffix s) as [pre Hpre].
  destruct (lstrip_suffix (rev (lstrip s))) as [post Hpost].
  exists pre, (rev post).
  rewrite <- rev_app_distr, <- Hpost, rev_involutive. exact Hpre.
Qed.

Lemma part_of_trans a b c : part_of a b -> part_of b c -> part_of a c.
Proof.
  intros (p1 & q1 & ->) (p2 & q2 & ->).
  exists (p2 ++ p1), (q1 ++ q2). now rewrite <- !app_assoc.
Qed.

(** X7: the extractor never makes text up: its result is the fixed
    placeholder or a contiguous part of the model output. *)
Theorem extract_code_block_part_of model_output :
  extract_code_block model_output = default_example
  \/ part_of (extract_code_block model_output) model_output.
Proof.
  unfold extract_code_block.
  destruct (Re.search fenced_pattern model_output) as [g|] eqn:E1.
  { right. apply (part_of_trans _ g); [apply strip_part_of|].
    apply search_sound in E1 as (pre & rest & -> & Hm).
    apply match_fenced_sound in Hm as (tag & post & -> & _).
    exists (pre ++ fence ++ tag ++ nl), (fence ++ post).
    now rewrite <- !app_assoc. }
  destruct (Re.search marker_pattern model_output) as [g|] eqn:E2.
  { right. apply (part_of_trans _ g); [apply strip_part_of|].
    apply search_sound in E2 as (pre & rest & -> & Hm).
    apply match_marker_sound in Hm as (post & -> & _).
    exists (pre ++ lit "<code>"), (lit "</code>" ++ post).
    now rewrite <- !app_assoc. }
  destruct (startswith (strip model_output) (lit "def ")
            || startswith (strip model_output) (lit "import ")).
  - right. apply strip_part_of.
  - now left.
Qed.

(** X8: a text that holds neither a triple backtick nor [<code>] is
    taken whole, trimmed, when after trimming it starts with [def ] or
    [import ]; otherwise the placeholder is returned. *)
Theorem extract_code_block_plain model_output :
  contains fence model_output = false ->
  contains (lit "<code>") model_output = false ->
  extract_code_block model_output
  = if startswith (strip model_output) (lit "def ")
       || startswith (strip model_output) (lit "import ")
    then strip model_output
    else default_example.
Proof.
  intros H1 H2. unfold extract_code_block.
  unfold fenced_pattern. rewrite (contains_false_search _ _ _ H1).
  unfold marker_pattern. now rewrite (contains_false_search _ _ _ H2).
Qed.

Lemma extract_code_block_plain_witness :
  extract_code_block (lit "  import os" ++ nl ++ lit "print(os.name)" ++ nl)
  = lit "import os" ++ nl ++ lit "print(os.name)".
Proof.
  rewrite (extract_code_block_plain
             (lit "  import os" ++ nl ++ lit "print(os.name)" ++ nl));
    reflexivity.
Defined.

(* ================================================================== *)
(** ** The trace of a run, stage by stage *)

Lemma log_callback_messages_app a b :
  log_callback_messages (a ++ b)
  = log_callback_messages a ++ log_callback_messages b.
Proof.
  induction a as [|ev a IH]; simpl; auto.
  destruct ev; simpl; now rewrite IH.
Qed.

Lemma progress_messages_app a b :
  progress_messages (a ++ b) = progress_messages a ++ progress_messages b.
Proof.
  induction a as [|ev a IH]; simpl; auto.
  destruct ev; simpl; now rewrite IH.
Qed.

Lemma info_messages_app a b :
  info_messages (a ++ b) = info_messages a ++ info_messages b.
Proof.
  induction a as [|ev a IH]; simpl; auto.
  destruct ev as [| | | |[| |] | |]; simpl; now rewrite IH.
Qed.

Lemma callback_events_app a b :
  callback_events (a ++ b) = callback_events a ++ callback_events b.
Proof.
  induction a as [|ev a IH]; simpl; auto.
  destruct ev; simpl; now rewrite IH.
Qed.

Lemma calls_of_app a b : calls_of (a ++ b) = calls_of a ++ calls_of b.
Proof.
  induction a as [|ev a IH]; simpl; auto.
  destruct ev; simpl; now rewrite IH.
Qed.

(** Events that are neither model calls, nor sleeps, nor callbacks,
    nor info lines. *)
Lemma silent_extension (P : event -> Prop) ext :
  Forall P ext ->
  (forall ev, P ev ->
              match ev with
              | ELogCallback _ | EProgressCallback _ _ | ELogger Info _ => False
              | _ => True
              end) ->
  log_callback_messages ext = [] /\ progress_messages ext = []
  /\ info_messages ext = [] /\ callback_events ext = []
  /\ progress_of ext = [].
Proof.
  intros H HP. induction H as [|ev ext Hev _ IH]; [repeat split|].
  specialize (HP ev Hev).
  destruct ev as [| | | |[| |] | |]; simpl; try contradiction; exact IH.
Qed.

Lemma retry_event_silent model prompt ev :
  retry_event model prompt ev ->
  match ev with
  | ELogCallback _ | EProgressCallback _ _ | ELogger Info _ => False
  | _ => True
  end.
Proof. destruct ev as [| | | |[| |] | |]; simpl; auto. Qed.

Lemma format_event_silent ev :
  format_event ev ->
  match ev with
  | ELogCallback _ | EProgressCallback _ _ | ELogger Info _ => False
  | _ => True
  end.
Proof. destruct ev as [| | | |[| |] | |]; simpl; auto. Qed.

Lemma format_event_no_calls ext :
  Forall format_event ext -> calls_of ext = [] /\ sleeps_of ext = [].
Proof.
  induction 1 as [|ev ext Hev _ IH]; [split; reflexivity|].
  destruct ev; simpl in *; try contradiction; exact IH.
Qed.

Lemma calls_to_calls_of c tr :
  calls_to c tr
  = List.length (filter (fun ci => client_eqb c (fst ci)) (calls_of tr)).
Proof.
  unfold calls_to. induction tr as [|ev tr IH]; simpl; auto.
  destruct ev; simpl; auto.
  destruct (client_eqb c c0); simpl; now rewrite IH.
Qed.

Lemma retry_event_other_calls model prompt c ext :
  Forall (retry_event model prompt) ext ->
  c <> chain_model model -> c <> BackupModel -> calls_to c ext = 0.
Proof.
  intros H Hc Hb. unfold calls_to.
  induction H as [|ev ext Hev _ IH]; auto.
  destruct ev; simpl in *; auto.
  rewrite client_eqb_neq; auto.
  destruct Hev as [[-> _] | [-> _]]; congruence.
Qed.

Lemma appends_format_code_events env code language :
  appends format_event (format_code env code language).
Proof.
  unfold format_code, logger. apply appends_try_catch.
  - destruct (str_eqb (lower env language) (lit "python")); [|apply appends_ret].
    apply appends_bind.
    { apply appends_bind; [apply appends_emit; exact I|].
      intros _. apply appends_lift. }
    intros f. apply appends_bind; [|intros g; apply appends_ret].
    apply appends_bind; [apply appends_emit; exact I|].
    intros _. apply appends_lift.
  - intros e. destruct (is_Exception e); [|apply appends_raise].
    apply appends_bind; [apply appends_emit; exact I|]. intros _.
    apply appends_ret.
Qed.

Lemma generate_with_retry_extension env model prompt tr r tr' :
  chain_model model <> BackupModel ->
  generate_with_retry env model prompt tr = (r, tr') ->
  exists ext, tr' = tr ++ ext /\ retry_extension model prompt ext.
Proof.
  intros Hne H.
  destruct (generate_with_retry_shape env model prompt tr Hne)
    as (res & ext & n & Hrun & Hn & Hp & Hb & Hs & HP).
  rewrite Hrun in H. injection H as _ <-.
  exists ext. split; auto. split; auto. now exists n.
Qed.

Section StageTraces.

Variable env : Env.
Variable topic : str.
Variable pcb lcb : option callback.

Lemma research_stage_trace tr r tr' :
  research_stage env topic pcb lcb tr = (r, tr') ->
  exists ext,
    tr' = tr
          ++ say_events pcb lcb (lit "Starting research phase for topic: " ++ topic)
               (Some 0%Z)
          ++ ext
    /\ retry_extension (research_chain topic) EmptyDict ext.
Proof.
  unfold research_stage. says. intros H.
  apply generate_with_retry_extension in H as (ext & -> & Hx); [|discriminate].
  exists ext. now rewrite <- app_assoc.
Qed.

Lemma draft_stage_trace b tr r tr' :
  draft_stage env pcb lcb b tr = (r, tr') ->
  exists ext,
    tr' = tr
          ++ say_events pcb lcb (lit "Research phase completed") (Some 25%Z)
          ++ say_events pcb lcb (lit "Starting creative content development")
               (Some 25%Z)
          ++ ext
    /\ match b with
       | AIMessage research =>
           retry_extension (creative_chain research) EmptyDict ext
       | PyStr _ => ext = [] /\ exists e, r = Raise e
       end.
Proof.
  unfold draft_stage. says.
  destruct b as [research|s]; cbn [get_content];
    rewrite ?ret_bind, ?raise_bind; intros H.
  - apply generate_with_retry_extension in H as (ext & -> & Hx); [|discriminate].
    exists ext. now rewrite <- !app_assoc.
  - inversion H; subst. exists []. rewrite app_nil_r, <- app_assoc. eauto.
Qed.

Lemma code_stage_trace tr r tr' :
  code_stage env topic pcb lcb tr = (r, tr') ->
  exists ext,
    tr' = tr
          ++ say_events pcb lcb (lit "Creative content development completed")
               (Some 50%Z)
          ++ say_events pcb lcb (lit "Starting code example generation")
               (Some 50%Z)
          ++ ext
    /\ retry_extension (code_chain topic) EmptyDict ext.
Proof.
  unfold code_stage. says. intros H.
  apply generate_with_retry_extension in H as (ext & -> & Hx); [|discriminate].
  exists ext. now rewrite <- !app_assoc.
Qed.

Lemma final_stage_trace b f c tr r tr' :
  final_stage env pcb lcb b f c tr = (r, tr') ->
  exists ext tail,
    tr' = tr
          ++ say_events pcb lcb (lit "Code example generation completed")
               (Some 75%Z)
          ++ say_events pcb lcb (lit "Extracting and formatting code")
               (Some 75%Z)
          ++ ext ++ tail
    /\ Forall format_event ext
    /\ (tail = []
        \/ tail = say_events pcb lcb (lit "Content generation completed")
                    (Some 100%Z))
    /\ (forall rep, r = Ok rep ->
          tail = say_events pcb lcb (lit "Content generation completed")
                   (Some 100%Z)
          /\ exists structure blog code,
              b = AIMessage structure /\ f = AIMessage blog /\ c = PyStr code
              /\ blog_structure rep = structure /\ blog_content rep = blog
              /\ original (code_example_of rep) = extract_code_block code
              /\ fst (format_code env (extract_code_block code) (lit "python")
                        (tr ++ say_events pcb lcb
                                 (lit "Code example generation completed")
                                 (Some 75%Z)
                            ++ say_events pcb lcb
                                 (lit "Extracting and formatting code")
                                 (Some 75%Z)))
                 = Ok (formatted (code_example_of rep))).
Proof.
  unfold final_stage. says. rewrite <- (app_assoc tr).
  set (tr1 := tr ++ say_events pcb lcb (lit "Code example generation completed")
                      (Some 75%Z)
              ++ say_events pcb lcb (lit "Extracting and formatting code")
                   (Some 75%Z)).
  destruct c as [content|code]; cbn [extract_code_block_of];
    rewrite ?ret_bind, ?raise_bind.
  { intros H. injection H as <- <-. exists [], [].
    unfold tr1. cbn [app]. rewrite app_nil_r.
    split; [reflexivity|]. split; [constructor|]. split; [auto|].
    intros rep Hr. discriminate Hr. }
  destruct (appends_format_code_events env (extract_code_block code)
              (lit "python") tr1) as (ext & Hext & HP).
  destruct (format_code env (extract_code_block code) (lit "python") tr1)
    as [[formatted_code|e] tr2] eqn:EF; simpl in Hext; subst tr2.
  2:{ rewrite (bind_raise _ _ _ _ _ EF). intros H. injection H as <- <-.
      exists ext, []. unfold tr1. rewrite <- !app_assoc, app_nil_r.
      split; [reflexivity|]. split; [exact HP|]. split; [auto|].
      intros rep Hr. discriminate Hr. }
  rewrite (bind_ok _ _ _ _ _ EF). says.
  assert (Htr : (tr1 ++ ext)
                ++ say_events pcb lcb (lit "Content generation completed")
                     (Some 100%Z)
                = tr
                  ++ say_events pcb lcb (lit "Code example generation completed")
                       (Some 75%Z)
                  ++ say_events pcb lcb (lit "Extracting and formatting code")
                       (Some 75%Z)
                  ++ ext
                  ++ say_events pcb lcb (lit "Content generation completed")
                       (Some 100%Z)).
  { unfold tr1. now rewrite <- !app_assoc. }
  destruct b as [structure|s1]; cbn [get_content];
    rewrite ?ret_bind, ?raise_bind.
  2:{ intros H. injection H as <- <-. eexists; eexists.
      split; [exact Htr|]. split; [exact HP|]. split; [auto|].
      intros rep Hr. discriminate Hr. }
  destruct f as [blog|s2]; cbn [get_content];
    rewrite ?ret_bind, ?raise_bind.
  2:{ intros H. injection H as <- <-. eexists; eexists.
      split; [exact Htr|]. split; [exact HP|]. split; [auto|].
      intros rep Hr. discriminate Hr. }
  intros H. injection H as <- <-. eexists; eexists.
  split; [exact Htr|]. split; [exact HP|]. split; [auto|].
  intros rep Hrep. injection Hrep as <-. split; auto.
  exists structure, blog, code. cbn [blog_structure blog_content
    code_example_of original formatted].
  repeat split. fold tr1. now rewrite EF.
Qed.

End StageTraces.

(** Every run is a chain of stages, each started where the one before
    ended, cut at the first stage that raises. *)
Lemma run_trace_cases env topic pcb lcb r tr :
  generate_technical_content env topic pcb lcb [] = (r, tr) ->
  (exists e, r = Raise e /\ research_stage env topic pcb lcb [] = (Raise e, tr))
  \/ exists b tr1,
      research_stage env topic pcb lcb [] = (Ok b, tr1)
      /\ ((exists e, r = Raise e /\ draft_stage env pcb lcb b tr1 = (Raise e, tr))
          \/ exists f tr2,
              draft_stage env pcb lcb b tr1 = (Ok f, tr2)
              /\ ((exists e, r = Raise e
                             /\ code_stage env topic pcb lcb tr2 = (Raise e, tr))
                  \/ exists c tr3,
                      code_stage env topic pcb lcb tr2 = (Ok c, tr3)
                      /\ final_stage env pcb lcb b f c tr3 = (r, tr))).
Proof.
  rewrite generate_technical_content_staged. intros H.
  destruct (research_stage env topic pcb lcb []) as [[b|e] tr1] eqn:ER.
  2:{ rewrite (bind_raise _ _ _ _ _ ER) in H. inversion H; subst.
      left. now exists e. }
  rewrite (bind_ok _ _ _ _ _ ER) in H.
  right. exists b, tr1. split; [reflexivity|].
  destruct (draft_stage env pcb lcb b tr1) as [[f|e] tr2] eqn:ED.
  2:{ rewrite (bind_raise _ _ _ _ _ ED) in H. inversion H; subst.
      left. now exists e. }
  rewrite (bind_ok _ _ _ _ _ ED) in H.
  right. exists f, tr2. split; [reflexivity|].
  destruct (code_stage env topic pcb lcb tr2) as [[c|e] tr3] eqn:EC.
  2:{ rewrite (bind_raise _ _ _ _ _ EC) in H. inversion H; subst.
      left. now exists e. }
  rewrite (bind_ok _ _ _ _ _ EC) in H.
  right. now exists c, tr3.
Qed.

(* ================================================================== *)
(** ** What a run shows and whom it calls *)

Lemma observation_nil {X} (f : trace -> list X) : observation f -> f [] = [].
Proof.
  intros [Happ _]. pose proof (Happ [] []) as H. simpl in H.
  destruct (f []); auto. simpl in H.
  apply (f_equal (@List.length X)) in H. simpl in H.
  rewrite length_app in H. simpl in H. lia.
Qed.

Lemma observation_silent {X} (f : trace -> list X) ext :
  observation f -> Forall silent_event ext -> f ext = [].
Proof.
  intros Hf H. induction H as [|ev ext Hev _ IH].
  - now apply observation_nil.
  - destruct Hf as [Happ Hs].
    change (ev :: ext) with ([ev] ++ ext). now rewrite Happ, IH, (Hs ev Hev).
Qed.

Lemma retry_extension_silent model prompt ext :
  retry_extension model prompt ext -> Forall silent_event ext.
Proof.
  intros [H _]. eapply Forall_impl; [|exact H].
  intros ev. apply retry_event_silent.
Qed.

Lemma format_events_silent ext : Forall format_event ext -> Forall silent_event ext.
Proof.
  intros H. eapply Forall_impl; [|exact H]. intros ev. apply format_event_silent.
Qed.

Lemma said_unfold pcb lcb m p points :
  said pcb lcb ((m, p) :: points)
  = say_events pcb lcb m (Some p) ++ said pcb lcb points.
Proof. reflexivity. Qed.

Ltac obs_done f Hf :=
  rewrite ?(observation_nil f Hf); cbn [app];
  rewrite ?app_nil_r, <- ?app_assoc; cbn [app];
  rewrite ?app_nil_r, <- ?app_assoc; reflexivity.

(** Whatever is read off the callbacks and info lines of a run is read
    off the first [k] calls of [log_and_progress]; [k] is 8 when a
    report is returned. *)
Lemma run_observed env topic pcb lcb r tr :
  generate_technical_content env topic pcb lcb [] = (r, tr) ->
  exists k,
    In k [1; 3; 5; 7; 8] /\ (forall rep, r = Ok rep -> k = 8)
    /\ forall (X : Type) (f : trace -> list X),
        observation f ->
        f tr = f (said pcb lcb (firstn k (pipeline_points topic))).
Proof.
  intros H. apply run_trace_cases in H.
  destruct H as [(e & -> & ER) | (b & tr1 & ER & H)].
  { apply research_stage_trace in ER as (e1 & -> & H1).
    exists 1. split; [simpl; tauto|]. split; [discriminate|].
    intros X f Hf. pose proof Hf as [Happ _].
    cbn [firstn pipeline_points pipeline_messages full_progress combine].
    rewrite !said_unfold. cbn [said flat_map app].
    rewrite !Happ.
    rewrite (observation_silent f e1 Hf (retry_extension_silent _ _ _ H1)).
    obs_done f Hf. }
  apply research_stage_trace in ER as (e1 & -> & H1).
  destruct H as [(e & -> & ED) | (f0 & tr2 & ED & H)].
  { apply draft_stage_trace in ED as (e2 & -> & H2).
    exists 3. split; [simpl; tauto|]. split; [discriminate|].
    intros X f Hf. pose proof Hf as [Happ _].
    cbn [firstn pipeline_points pipeline_messages full_progress combine].
    rewrite !said_unfold. cbn [said flat_map app].
    rewrite !Happ.
    rewrite (observation_silent f e1 Hf (retry_extension_silent _ _ _ H1)).
    assert (He2 : f e2 = []).
    { destruct b; [apply (observation_silent f e2 Hf);
                   apply (retry_extension_silent _ _ _ H2)|].
      destruct H2 as [-> _]. now apply observation_nil. }
    rewrite He2. obs_done f Hf. }
  assert (He2 : forall X (f : trace -> list X) e2,
             observation f ->
             match b with
             | AIMessage research =>
                 retry_extension (creative_chain research) EmptyDict e2
             | PyStr _ => e2 = [] /\ exists e, Ok f0 = Raise e
             end -> f e2 = []).
  { intros X f e2 Hf H2.
    destruct b; [apply (observation_silent f e2 Hf);
                 apply (retry_extension_silent _ _ _ H2)|].
    destruct H2 as [-> _]. now apply observation_nil. }
  apply draft_stage_trace in ED as (e2 & -> & H2).
  destruct H as [(e & -> & EC) | (c & tr3 & EC & H)].
  { apply code_stage_trace in EC as (e3 & -> & H3).
    exists 5. split; [simpl; tauto|]. split; [discriminate|].
    intros X f Hf. pose proof Hf as [Happ _].
    cbn [firstn pipeline_points pipeline_messages full_progress combine].
    rewrite !said_unfold. cbn [said flat_map app].
    rewrite !Happ.
    rewrite (observation_silent f e1 Hf (retry_extension_silent _ _ _ H1)).
    rewrite (He2 X f e2 Hf H2).
    rewrite (observation_silent f e3 Hf (retry_extension_silent _ _ _ H3)).
    obs_done f Hf. }
  apply code_stage_trace in EC as (e3 & -> & H3).
  apply final_stage_trace in H as (e4 & tail & -> & H4 & Htail & Hok).
  destruct Htail as [-> | ->].
  - exists 7. split; [simpl; tauto|].
    split; [intros rep Hr; destruct (Hok rep Hr) as [Hsay _];
            destruct pcb, lcb; discriminate Hsay|].
    intros X f Hf. pose proof Hf as [Happ _].
    cbn [firstn pipeline_points pipeline_messages full_progress combine].
    rewrite !said_unfold. cbn [said flat_map].
    rewrite !Happ.
    rewrite (observation_silent f e1 Hf (retry_extension_silent _ _ _ H1)).
    rewrite (He2 X f e2 Hf H2).
    rewrite (observation_silent f e3 Hf (retry_extension_silent _ _ _ H3)).
    rewrite (observation_silent f e4 Hf (format_events_silent _ H4)).
    obs_done f Hf.
  - exists 8. split; [simpl; tauto|]. split; [auto|].
    intros X f Hf. pose proof Hf as [Happ _].
    cbn [firstn pipeline_points pipeline_messages full_progress combine].
    rewrite !said_unfold. cbn [said flat_map].
    rewrite !Happ.
    rewrite (observation_silent f e1 Hf (retry_extension_silent _ _ _ H1)).
    rewrite (He2 X f e2 Hf H2).
    rewrite (observation_silent f e3 Hf (retry_extension_silent _ _ _ H3)).
    rewrite (observation_silent f e4 Hf (format_events_silent _ H4)).
    obs_done f Hf.
Qed.

Lemma info_messages_observation : observation info_messages.
Proof.
  split; [apply info_messages_app|].
  intros ev H. destruct ev as [| | | |[| |] | |]; simpl in *; auto; contradiction.
Qed.



Lemma callback_events_observation : observation callback_events.
Proof.
  split; [apply callback_events_app|].
  intros ev H. destruct ev; simpl in *; auto; contradiction.
Qed.

Lemma info_messages_said pcb lcb points :
  info_messages (said pcb lcb points) = map fst points.
Proof.
  induction points as [|[m p] points IH]; auto.
  rewrite said_unfold, info_messages_app, IH.
  now destruct pcb, lcb.
Qed.

Lemma log_callback_messages_said pcb lcb points :
  log_callback_messages (said pcb lcb points) = heard lcb (map fst points).
Proof.
  induction points as [|[m p] points IH]; [now destruct lcb|].
  rewrite said_unfold, log_callback_messages_app, IH.
  now destruct pcb, lcb.
Qed.

Lemma progress_messages_said pcb lcb points :
  progress_messages (said pcb lcb points) = heard pcb (map fst points).
Proof.
  induction points as [|[m p] points IH]; [now destruct pcb|].
  rewrite said_unfold, progress_messages_app, IH.
  now destruct pcb, lcb.
Qed.








Section SinkLevels.

Variable topic : str.
Variable pcb : option Sinks.progress_sink.
Variable lcb : option Sinks.log_sink.






End SinkLevels.

(** With callbacks that return, the run is the one studied above. *)
Lemma generate_technical_content_returning env topic pcb lcb tr :
  Sinks.generate_technical_content env topic
    (Sinks.returning_progress pcb) (Sinks.returning_log lcb) tr
  = generate_technical_content env topic pcb lcb tr.
Proof. destruct pcb, lcb; reflexivity. Qed.



Lemma In_say_invoke pcb lcb m p c i :
  In (EInvoke c i) (say_events pcb lcb m p) -> False.
Proof.
  unfold say_events. destruct lcb, pcb, p; simpl; intuition discriminate.
Qed.

Lemma In_retry_invoke model prompt ext c i :
  retry_extension model prompt ext -> In (EInvoke c i) ext ->
  (c = chain_model model /\ i = chain_messages model)
  \/ (c = BackupModel /\ i = prompt).
Proof.
  intros [H _] Hin. rewrite Forall_forall in H. exact (H _ Hin).
Qed.

Lemma In_format_invoke ext c i :
  Forall format_event ext -> In (EInvoke c i) ext -> False.
Proof.
  intros H Hin. rewrite Forall_forall in H. exact (H _ Hin).
Qed.

Ltac split_in_app H :=
  lazymatch type of H with
  | In _ (say_events _ _ _ _) => exfalso; exact (In_say_invoke _ _ _ _ _ _ H)
  | In _ [] => destruct H
  | In _ (_ ++ _) =>
      apply in_app_or in H; destruct H as [H|H]; split_in_app H
  | _ => idtac
  end.

Ltac split_in H :=
  split_in_app H;
  try (exfalso; eapply In_format_invoke; eassumption).

(** X10: what each model is asked.  In every run the research model and
    the code model are called only with their fixed instruction and the
    topic, the creative model only with its instruction and the text the
    research stage returned, quoted verbatim, and the backup model only
    with the empty dictionary: the prompt of the failed call never
    reaches it. *)
Theorem model_inputs env topic pcb lcb r tr :
  generate_technical_content env topic pcb lcb [] = (r, tr) ->
  forall c i, In (EInvoke c i) tr ->
    match c with
    | ResearchModel => i = chain_messages (research_chain topic)
    | CreativeModel =>
        exists research tr1,
          research_stage env topic pcb lcb [] = (Ok (AIMessage research), tr1)
          /\ i = chain_messages (creative_chain research)
    | CodeModel => i = chain_messages (code_chain topic)
    | BackupModel => i = EmptyDict
    end.
Proof.
  intros H c i Hin. apply run_trace_cases in H.
  assert (Hresearch : forall ext,
             retry_extension (research_chain topic) EmptyDict ext ->
             In (EInvoke c i) ext ->
             match c with
             | ResearchModel => i = chain_messages (research_chain topic)
             | CreativeModel =>
                 exists research tr1,
                   research_stage env topic pcb lcb []
                   = (Ok (AIMessage research), tr1)
                   /\ i = chain_messages (creative_chain research)
             | CodeModel => i = chain_messages (code_chain topic)
             | BackupModel => i = EmptyDict
             end).
  { intros ext Hx Hi.
    destruct (In_retry_invoke _ _ _ _ _ Hx Hi) as [[-> ->] | [-> ->]];
      reflexivity. }
  assert (Hcode : forall ext,
             retry_extension (code_chain topic) EmptyDict ext ->
             In (EInvoke c i) ext ->
             match c with
             | ResearchModel => i = chain_messages (research_chain topic)
             | CreativeModel =>
                 exists research tr1,
                   research_stage env topic pcb lcb []
                   = (Ok (AIMessage research), tr1)
                   /\ i = chain_messages (creative_chain research)
             | CodeModel => i = chain_messages (code_chain topic)
             | BackupModel => i = EmptyDict
             end).
  { intros ext Hx Hi.
    destruct (In_retry_invoke _ _ _ _ _ Hx Hi) as [[-> ->] | [-> ->]];
      reflexivity. }
  destruct H as [(e & -> & ER) | (b & tr1 & ER & H)].
  { apply research_stage_trace in ER as (e1 & -> & H1).
    split_in Hin. exact (Hresearch e1 H1 Hin). }
  pose proof ER as ER'.
  apply research_stage_trace in ER as (e1 & -> & H1).
  assert (Hdraft : forall ext (r2 : result pyval),
             match b with
             | AIMessage research =>
                 retry_extension (creative_chain research) EmptyDict ext
             | PyStr _ => ext = [] /\ exists e, r2 = Raise e
             end ->
             In (EInvoke c i) ext ->
             match c with
             | ResearchModel => i = chain_messages (research_chain topic)
             | CreativeModel =>
                 exists research tr1,
                   research_stage env topic pcb lcb []
                   = (Ok (AIMessage research), tr1)
                   /\ i = chain_messages (creative_chain research)
             | CodeModel => i = chain_messages (code_chain topic)
             | BackupModel => i = EmptyDict
             end).
  { intros ext r2 Hx Hi. destruct b as [research|s].
    - destruct (In_retry_invoke _ _ _ _ _ Hx Hi) as [[-> ->] | [-> ->]];
        [|reflexivity].
      cbn [chain_model creative_chain]. eauto.
    - destruct Hx as [-> _]. destruct Hi. }
  destruct H as [(e & -> & ED) | (f & tr2 & ED & H)].
  { apply draft_stage_trace in ED as (e2 & -> & H2).
    split_in Hin; [exact (Hresearch e1 H1 Hin) | exact (Hdraft e2 _ H2 Hin)]. }
  apply draft_stage_trace in ED as (e2 & -> & H2).
  destruct H as [(e & -> & EC) | (c0 & tr3 & EC & H)].
  { apply code_stage_trace in EC as (e3 & -> & H3).
    split_in Hin;
      [exact (Hresearch e1 H1 Hin) | exact (Hdraft e2 _ H2 Hin)
       | exact (Hcode e3 H3 Hin)]. }
  apply code_stage_trace in EC as (e3 & -> & H3).
  apply final_stage_trace in H as (e4 & tail & -> & H4 & Htail & _).
  destruct Htail as [-> | ->];
    split_in Hin;
    [exact (Hresearch e1 H1 Hin) | exact (Hdraft e2 _ H2 Hin)
     | exact (Hcode e3 H3 Hin)
     | exact (Hresearch e1 H1 Hin) | exact (Hdraft e2 _ H2 Hin)
     | exact (Hcode e3 H3 Hin)].
Qed.

(** The draft model is down: the backup is asked three times, each time
    with the empty dictionary. *)
Lemma model_inputs_witness :
  In (EInvoke BackupModel EmptyDict)
     (snd (generate_technical_content draft_failing_env (lit "topic")
             None None []))
  /\ forall i,
      In (EInvoke BackupModel i)
         (snd (generate_technical_content draft_failing_env (lit "topic")
                 None None [])) ->
      i = EmptyDict.
Proof.
  split.
  - vm_compute. tauto.
  - intros i Hin.
    apply (model_inputs draft_failing_env (lit "topic") None None
             (fst (generate_technical_content draft_failing_env (lit "topic")
                     None None []))
             (snd (generate_technical_content draft_failing_env (lit "topic")
                     None None []))
             (surjective_pairing _) BackupModel i Hin).
Defined.

Lemma sleeps_of_say pcb lcb m p : sleeps_of (say_events pcb lcb m p) = [].
Proof. now destruct pcb, lcb, p. Qed.

Lemma format_events_counts c ext :
  Forall format_event ext -> calls_to c ext = 0 /\ sleeps_of ext = [].
Proof.
  unfold calls_to. induction 1 as [|ev ext Hev _ IH]; [split; reflexivity|].
  destruct ev; simpl in *; try contradiction; exact IH.
Qed.

Lemma retry_extension_counts model prompt ext :
  retry_extension model prompt ext -> chain_model model <> BackupModel ->
  1 <= calls_to (chain_model model) ext <= 3
  /\ calls_to BackupModel ext <= 3
  /\ (forall c, c <> chain_model model -> c <> BackupModel -> calls_to c ext = 0)
  /\ exists j, j <= 2 /\ sleeps_of ext = repeat 4%Z j.
Proof.
  intros [HF (n & Hn & Hp & Hb & Hs)] Hne.
  repeat split; try lia.
  - intros c H1 H2. now apply (retry_event_other_calls model prompt).
  - exists (n - 1). split; [lia | exact Hs].
Qed.

Ltac stage_counts H p :=
  let Hp := fresh "Hp" in
  let Hb := fresh "Hb" in
  let Ho := fresh "Ho" in
  let j := fresh "j" in
  let Hj := fresh "Hj" in
  let Hs := fresh "Hs" in
  destruct (retry_extension_counts _ _ _ H ltac:(discriminate))
    as (Hp & Hb & Ho & j & Hj & Hs);
  cbn [chain_model research_chain creative_chain code_chain] in Hp, Ho;
  try (pose proof (Ho ResearchModel ltac:(discriminate) ltac:(discriminate)));
  try (pose proof (Ho CreativeModel ltac:(discriminate) ltac:(discriminate)));
  try (pose proof (Ho CodeModel ltac:(discriminate) ltac:(discriminate))).

Ltac count_trace :=
  rewrite ?calls_to_app, ?sleeps_of_app, ?calls_to_say, ?sleeps_of_say;
  cbn [app calls_to invocations filter List.length sleeps_of].

(** X11: the cost of a run is bounded whatever the models do: each of
    the three stage models is called at most three times, the backup
    model at most nine times, and the run sleeps at most six times,
    four seconds each.  A run that returns a report has called each of
    the three stage models at least once. *)
Theorem run_bounds env topic pcb lcb r tr :
  generate_technical_content env topic pcb lcb [] = (r, tr) ->
  calls_to ResearchModel tr <= 3
  /\ calls_to CreativeModel tr <= 3
  /\ calls_to CodeModel tr <= 3
  /\ calls_to BackupModel tr <= 9
  /\ (exists n, n <= 6 /\ sleeps_of tr = repeat 4%Z n)
  /\ (forall rep, r = Ok rep ->
        1 <= calls_to ResearchModel tr /\ 1 <= calls_to CreativeModel tr
        /\ 1 <= calls_to CodeModel tr).
Proof.
  intros H. apply run_trace_cases in H.
  destruct H as [(e & -> & ER) | (b & tr1 & ER & H)].
  { apply research_stage_trace in ER as (e1 & -> & Hx1).
    stage_counts Hx1 ResearchModel. count_trace.
    repeat split; try lia; try discriminate.
    exists j. split; [lia | now rewrite Hs]. }
  apply research_stage_trace in ER as (e1 & -> & Hx1).
  stage_counts Hx1 ResearchModel.
  assert (Hdraft : forall e2 (r2 : result pyval),
             match b with
             | AIMessage research =>
                 retry_extension (creative_chain research) EmptyDict e2
             | PyStr _ => e2 = [] /\ exists e, r2 = Raise e
             end ->
             calls_to ResearchModel e2 = 0 /\ calls_to CodeModel e2 = 0
             /\ calls_to CreativeModel e2 <= 3 /\ calls_to BackupModel e2 <= 3
             /\ (forall f, r2 = Ok f -> 1 <= calls_to CreativeModel e2)
             /\ exists j2, j2 <= 2 /\ sleeps_of e2 = repeat 4%Z j2).
  { intros e2 r2 Hx2. destruct b as [research|s].
    - stage_counts Hx2 CreativeModel. repeat split; try lia.
      eexists; split; [|eassumption]; lia.
    - destruct Hx2 as [-> [e ->]]. repeat split; auto; try discriminate.
      exists 0. split; [lia | reflexivity]. }
  destruct H as [(e & -> & ED) | (f & tr2 & ED & H)].
  { apply draft_stage_trace in ED as (e2 & -> & Hx2).
    destruct (Hdraft e2 _ Hx2) as (? & ? & ? & ? & _ & j2 & ? & Hs2).
    count_trace. repeat split; try lia; try discriminate.
    exists (j + j2). split; [lia|]. now rewrite Hs, Hs2, repeat_app. }
  apply draft_stage_trace in ED as (e2 & -> & Hx2).
  destruct (Hdraft e2 _ Hx2) as (? & ? & ? & ? & Hc2 & j2 & ? & Hs2).
  specialize (Hc2 f eq_refl).
  destruct H as [(e & -> & EC) | (c & tr3 & EC & H)].
  { apply code_stage_trace in EC as (e3 & -> & Hx3).
    stage_counts Hx3 CodeModel. count_trace.
    repeat split; try lia; try discriminate.
    exists (j + (j2 + j0)). split; [lia|].
    rewrite Hs, Hs2, Hs0, !repeat_app, <- ?app_assoc. reflexivity. }
  apply code_stage_trace in EC as (e3 & -> & Hx3).
  stage_counts Hx3 CodeModel.
  apply final_stage_trace in H as (e4 & tail & -> & Hx4 & Htail & _).
  assert (Htl : forall c, calls_to c tail = 0 /\ sleeps_of tail = []).
  { intros c0. destruct Htail as [-> | ->]; [split; reflexivity|].
    split; [apply calls_to_say | apply sleeps_of_say]. }
  pose proof (format_events_counts ResearchModel e4 Hx4) as [? Hs4].
  pose proof (format_events_counts CreativeModel e4 Hx4) as [? _].
  pose proof (format_events_counts CodeModel e4 Hx4) as [? _].
  pose proof (format_events_counts BackupModel e4 Hx4) as [? _].
  pose proof (Htl ResearchModel) as [? Hst].
  pose proof (Htl CreativeModel) as [? _].
  pose proof (Htl CodeModel) as [? _].
  pose proof (Htl BackupModel) as [? _].
  count_trace. repeat split; try lia.
  exists (j + (j2 + j0)). split; [lia|].
  rewrite Hs, Hs2, Hs0, Hs4, Hst, !repeat_app, ?app_nil_r, <- ?app_assoc.
  rewrite ?app_nil_r. reflexivity.
Qed.

Lemma run_bounds_witness :
  calls_to CreativeModel
    (snd (generate_technical_content draft_failing_env (lit "topic")
            None None [])) <= 3
  /\ calls_to BackupModel
       (snd (generate_technical_content draft_failing_env (lit "topic")
               None None [])) <= 9.
Proof.
  destruct (run_bounds draft_failing_env (lit "topic") None None
              (fst (generate_technical_content draft_failing_env (lit "topic")
                      None None []))
              (snd (generate_technical_content draft_failing_env (lit "topic")
                      None None [])))
    as (_ & H1 & _ & H2 & _).
  - vm_compute. reflexivity.
  - split; assumption.
Defined.

Lemma format_code_result env code language tr out :
  fst (format_code env code language tr) = Ok out ->
  out = code
  \/ exists formatted_code,
      black_format_str env code = Ok formatted_code
      /\ isort_code env formatted_code = Ok out.
Proof.
  unfold format_code, try_catch, bind, logger, emit, lift, ret, raise.
  destruct (str_eqb (lower env language) (lit "python")).
  - destruct (black_format_str env code) as [f|e] eqn:Eb.
    + destruct (isort_code env f) as [g|e] eqn:Ei; simpl.
      * intros H. injection H as <-. right. eauto.
      * destruct (is_Exception e); simpl; intros H;
          [injection H as <-; now left | discriminate].
    + destruct (is_Exception e); simpl; intros H;
        [injection H as <-; now left | discriminate].
  - simpl. intros H. injection H as <-. now left.
Qed.

(** X12: where the fields of a returned report come from.
    [blog_structure] is the text the research stage returned,
    [blog_content] the text the draft stage returned, [original] the
    extraction from the text the code stage returned, and [formatted]
    is either [original] unchanged or [isort] applied to [black] applied
    to [original]. *)
Theorem report_fields env topic pcb lcb rep tr :
  generate_technical_content env topic pcb lcb [] = (Ok rep, tr) ->
  exists tr1 tr2 code tr3,
    research_stage env topic pcb lcb [] = (Ok (AIMessage (blog_structure rep)), tr1)
    /\ draft_stage env pcb lcb (AIMessage (blog_structure rep)) tr1
       = (Ok (AIMessage (blog_content rep)), tr2)
    /\ code_stage env topic pcb lcb tr2 = (Ok (PyStr code), tr3)
    /\ original (code_example_of rep) = extract_code_block code
    /\ (formatted (code_example_of rep) = original (code_example_of rep)
        \/ exists formatted_code,
            black_format_str env (original (code_example_of rep))
            = Ok formatted_code
            /\ isort_code env formatted_code
               = Ok (formatted (code_example_of rep))).
Proof.
  intros H. apply run_trace_cases in H.
  destruct H as [(e & He & _) | (b & tr1 & ER & H)]; [discriminate|].
  destruct H as [(e & He & _) | (f & tr2 & ED & H)]; [discriminate|].
  destruct H as [(e & He & _) | (c & tr3 & EC & H)]; [discriminate|].
  apply final_stage_trace in H as (e4 & tail & _ & _ & _ & Hok).
  destruct (Hok rep eq_refl)
    as (_ & structure & blog & code & -> & -> & -> & Hs & Hb & Ho & Hf).
  subst structure blog.
  exists tr1, tr2, code, tr3. repeat split; auto.
  rewrite Ho. now apply format_code_result in Hf.
Qed.

Lemma report_fields_witness :
  exists rep tr,
    generate_technical_content happy_env (lit "topic") None None [] = (Ok rep, tr)
    /\ blog_structure rep = lit "R"
    /\ blog_content rep = lit "D using R"
    /\ original (code_example_of rep) = lit "print(1)".
Proof.
  eexists. eexists. split; [vm_compute; reflexivity|].
  destruct (report_fields happy_env (lit "topic") None None _ _ eq_refl)
    as (tr1 & tr2 & code & tr3 & _).
  repeat split.
Defined.

(* ================================================================== *)
(** ** The Streamlit page *)

Module AppFacts.
Import App.

Lemma lastn_all {A} n (l : list A) : List.length l <= n -> lastn n l = l.
Proof.
  intros H. unfold lastn. replace (List.length l - n) with 0 by lia. reflexivity.
Qed.

Lemma lastn_length {A} n (l : list A) : List.length (lastn n l) <= n.
Proof. unfold lastn. rewrite length_skipn. lia. Qed.

Lemma lastn_drop_head {A} n (x : A) (l : list A) :
  n <= List.length l -> lastn n (x :: l) = lastn n l.
Proof.
  intros H. unfold lastn. cbn [List.length].
  replace (S (List.length l) - n) with (S (List.length l - n)) by lia.
  reflexivity.
Qed.

Lemma update_log_kept message pg :
  List.length (log_messages pg) <= 10 ->
  List.length (log_messages (update_log message pg)) <= 10
  /\ forall rest,
      lastn 10 (log_messages (update_log message pg) ++ rest)
      = lastn 10 ((log_messages pg ++ [message]) ++ rest).
Proof.
  intros H. unfold update_log. cbn [log_messages].
  assert (Hlen : List.length (log_messages pg ++ [message])
                 = S (List.length (log_messages pg)))
    by (rewrite length_app; simpl; lia).
  destruct (Nat.ltb_spec 10 (List.length (log_messages pg ++ [message]))) as [Hl|Hl].
  - destruct (log_messages pg ++ [message]) as [|x l] eqn:E; [simpl in Hl; lia|].
    cbn [tl]. simpl in Hlen, Hl. split; [lia|].
    intros rest. cbn [app]. rewrite lastn_drop_head; auto.
    rewrite length_app. lia.
  - split; [lia | reflexivity].
Qed.

(** X13: the log window.  Starting from at most ten lines, after any
    sequence of calls of [update_log] the list [log_messages] holds the
    last ten of all lines received, oldest first, and never more than
    ten. *)
Theorem update_log_window messages : forall pg,
  List.length (log_messages pg) <= 10 ->
  log_messages (fold_left (fun p m => update_log m p) messages pg)
  = lastn 10 (log_messages pg ++ messages)
  /\ List.length
       (log_messages (fold_left (fun p m => update_log m p) messages pg)) <= 10.
Proof.
  induction messages as [|m messages IH]; intros pg H.
  - cbn [fold_left]. rewrite app_nil_r, lastn_all; auto.
  - cbn [fold_left].
    destruct (update_log_kept m pg H) as [Hk Hrest].
    destruct (IH (update_log m pg) Hk) as [IH1 IH2].
    split; auto.
    rewrite IH1, Hrest, <- app_assoc. reflexivity.
Qed.

Lemma update_log_window_witness :
  log_messages
    (fold_left (fun p m => update_log m p)
       (map (fun n => [N.of_nat n]) (seq 1 12))
       {| log_messages := []; screen := [] |})
  = map (fun n => [N.of_nat n]) (seq 3 10).
Proof.
  destruct (update_log_window (map (fun n => [N.of_nat n]) (seq 1 12))
              {| log_messages := []; screen := [] |}) as [H _].
  - simpl. lia.
  - rewrite H. reflexivity.
Defined.

Lemma replay_callback_events tr : forall pg,
  replay tr pg = replay (callback_events tr) pg.
Proof.
  induction tr as [|ev tr IH]; intros pg; auto.
  destruct ev; simpl; auto.
Qed.

Lemma fold_show_log ws : forall pg,
  log_messages (fold_left (fun pg w => show w pg) ws pg) = log_messages pg.
Proof. induction ws as [|w ws IH]; intros pg; simpl; auto. now rewrite IH. Qed.

Lemma fold_show_screen ws : forall pg,
  screen (fold_left (fun pg w => show w pg) ws pg) = screen pg ++ ws.
Proof.
  induction ws as [|w ws IH]; intros pg; simpl.
  - now rewrite app_nil_r.
  - rewrite IH. simpl. now rewrite <- app_assoc.
Qed.

(** X14: the page has both closures wired to the run, and
    [update_progress] calls [update_log] itself, so every message of the
    run enters the log twice.  After any run that the page survives the
    log window holds the last ten lines of the doubled messages,
    followed by the error line if the run failed; after a successful
    run these are the last five pipeline messages, each twice, and the
    first three messages are gone. *)
Theorem main_log_window env topic r tr :
  topic <> [] ->
  generate_technical_content env topic (Some Callable) (Some Callable) [] = (r, tr) ->
  (forall e, r = Raise e -> is_Exception e = true) ->
  log_messages (snd (fst (main env (Ok tt) topic true)))
  = lastn 10 (twice (info_messages tr)
              ++ match r with
                 | Ok _ => []
                 | Raise e => [lit "Error: " ++ exn_text e]
                 end)
  /\ (forall rep, r = Ok rep ->
        log_messages (snd (fst (main env (Ok tt) topic true)))
        = twice (skipn 3 (pipeline_messages topic))).
Proof.
  intros Hne H Hexc.
  destruct topic as [|c0 topic0]; [contradiction|].
  set (topic := c0 :: topic0) in *.
  pose proof (run_observed _ _ _ _ _ _ H) as (k & Hk & Hok & Hobs).
  assert (Hreplay : replay tr first_page
                    = replay (callback_events
                                (said (Some Callable) (Some Callable)
                                   (firstn k (pipeline_points topic))))
                        first_page).
  { rewrite replay_callback_events.
    now rewrite (Hobs _ _ callback_events_observation). }
  assert (Hinfo : info_messages tr = map fst (firstn k (pipeline_points topic))).
  { now rewrite (Hobs _ _ info_messages_observation), info_messages_said. }
  unfold main. fold topic. unfold topic at 1. rewrite H.
  destruct r as [rep|e].
  - cbn [fst snd]. rewrite fold_show_log, Hreplay, Hinfo.
    rewrite (Hok rep eq_refl). split; [reflexivity|].
    intros rep' _. reflexivity.
  - rewrite (Hexc e eq_refl). cbn [fst snd].
    rewrite Hreplay, Hinfo. split; [|discriminate].
    simpl in Hk.
    destruct Hk as [<- | [<- | [<- | [<- | [<- | []]]]]]; reflexivity.
Qed.

Lemma main_log_window_witness :
  log_messages (snd (fst (main happy_env (Ok tt) (lit "topic") true)))
  = [lit "Creative content development completed";
     lit "Creative content development completed";
     lit "Starting code example generation";
     lit "Starting code example generation";
     lit "Code example generation completed";
     lit "Code example generation completed";
     lit "Extracting and formatting code";
     lit "Extracting and formatting code";
     lit "Content generation completed";
     lit "Content generation completed"].
Proof.
  destruct (main_log_window happy_env (lit "topic")
              (fst (generate_technical_content happy_env (lit "topic")
                      (Some Callable) (Some Callable) []))
              (snd (generate_technical_content happy_env (lit "topic")
                      (Some Callable) (Some Callable) [])))
    as [_ H].
  - discriminate.
  - vm_compute. reflexivity.
  - intros e He. vm_compute in He. discriminate He.
  - erewrite H; [reflexivity | vm_compute; reflexivity].
Defined.

Lemma update_log_screen message pg :
  exists s, screen (update_log message pg) = screen pg ++ [SlotText LogContainer s].
Proof. unfold update_log. cbn [screen]. eauto. Qed.

(** The callbacks only move the progress bar and rewrite the two
    placeholders. *)
Lemma replay_screen tr : forall pg,
  exists ws,
    screen (replay tr pg) = screen pg ++ ws
    /\ Forall (fun w => match w with
                        | StProgress _ | SlotText _ _ => True
                        | _ => False
                        end) ws.
Proof.
  induction tr as [|ev tr IH]; intros pg.
  - exists []. split; [now rewrite app_nil_r | constructor].
  - destruct ev; cbn [replay]; auto.
    + destruct (IH (update_log message pg)) as (ws & Hs & HF).
      destruct (update_log_screen message pg) as [s Hu].
      exists (SlotText LogContainer s :: ws). rewrite Hs, Hu, <- app_assoc.
      split; [reflexivity | now constructor].
    + destruct (IH (update_progress percent message pg)) as (ws & Hs & HF).
      unfold update_progress in *.
      destruct (update_log_screen message
                  (show (SlotText StatusText message)
                     (show (StProgress percent) pg))) as [s Hu].
      rewrite Hu in Hs. cbn [show screen] in Hs.
      exists (StProgress percent :: SlotText StatusText message
              :: SlotText LogContainer s :: ws).
      rewrite Hs, <- !app_assoc.
      split; [reflexivity | repeat constructor; assumption].
Qed.

Lemma first_page_shows_no_result : existsb shows_result (screen first_page) = false.
Proof. reflexivity. Qed.

Lemma replay_shows_no_result tr :
  existsb shows_result (screen (replay tr first_page)) = false.
Proof.
  destruct (replay_screen tr first_page) as (ws & -> & HF).
  rewrite existsb_app, first_page_shows_no_result. cbn [orb].
  induction HF as [|w ws Hw _ IH]; auto.
  destruct w; try contradiction; exact IH.
Qed.

Lemma last_update_log message pg d :
  last (log_messages (update_log message pg)) d = message.
Proof.
  unfold update_log. cbn [log_messages].
  destruct (10 <? List.length (log_messages pg ++ [message])) eqn:E.
  - apply Nat.ltb_lt in E. rewrite length_app in E. simpl in E.
    destruct (log_messages pg) as [|x l]; [simpl in E; lia|].
    cbn [app tl]. apply last_last.
  - apply last_last.
Qed.

(** X15: a run that fails with an [Exception] does not take the page
    down.  [main] returns normally, shows `An error occurred: ...` with
    the text of the error, logs it, puts `Error: ...` as the newest line
    of the log window, and shows no result: no blog text, no code, no
    download button. *)
Theorem main_reports_failure env topic e tr :
  topic <> [] ->
  generate_technical_content env topic (Some Callable) (Some Callable) []
  = (Raise e, tr) ->
  is_Exception e = true ->
  exists pg,
    main env (Ok tt) topic true = (Ok tt, pg, tr)
    /\ In (StError (lit "An error occurred: " ++ exn_text e)) (screen pg)
    /\ In (LoggerError (lit "Content generation error: " ++ exn_text e))
          (screen pg)
    /\ last (log_messages pg) [] = lit "Error: " ++ exn_text e
    /\ existsb shows_result (screen pg) = false.
Proof.
  intros Hne H He.
  destruct topic as [|c0 topic0]; [contradiction|].
  unfold main. rewrite H, He.
  eexists. split; [reflexivity|].
  split; [|split; [|split]].
  - destruct (update_log_screen (lit "Error: " ++ exn_text e)
                (show (LoggerError (lit "Content generation error: "
                                    ++ exn_text e))
                   (show (StError (lit "An error occurred: " ++ exn_text e))
                      (replay tr first_page)))) as [s ->].
    cbn [show screen]. rewrite !in_app_iff. simpl. tauto.
  - destruct (update_log_screen (lit "Error: " ++ exn_text e)
                (show (LoggerError (lit "Content generation error: "
                                    ++ exn_text e))
                   (show (StError (lit "An error occurred: " ++ exn_text e))
                      (replay tr first_page)))) as [s ->].
    cbn [show screen]. rewrite !in_app_iff. simpl. tauto.
  - apply last_update_log.
  - destruct (update_log_screen (lit "Error: " ++ exn_text e)
                (show (LoggerError (lit "Content generation error: "
                                    ++ exn_text e))
                   (show (StError (lit "An error occurred: " ++ exn_text e))
                      (replay tr first_page)))) as [s ->].
    cbn [show screen]. rewrite !existsb_app, replay_shows_no_result.
    reflexivity.
Qed.

Lemma main_reports_failure_witness :
  exists pg tr,
    main draft_failing_env (Ok tt) (lit "topic") true = (Ok tt, pg, tr)
    /\ last (log_messages pg) [] = lit "Error: quota exceeded"
    /\ existsb shows_result (screen pg) = false.
Proof.
  destruct (main_reports_failure draft_failing_env (lit "topic")
              (exn_of OtherException "quota exceeded")
              (snd (generate_technical_content draft_failing_env (lit "topic")
                      (Some Callable) (Some Callable) [])))
    as (pg & Hm & _ & _ & Hl & Hs).
  - discriminate.
  - vm_compute. reflexivity.
  - reflexivity.
  - exists pg. eexists. split; [exact Hm|]. split; [exact Hl | exact Hs].
Defined.

Lemma replace_spaces_no_space topic : ~ In 32%N (replace_spaces topic).
Proof.
  unfold replace_spaces. rewrite in_map_iff. intros (c & Hc & _).
  destruct (N.eqb_spec c 32); [discriminate | congruence].
Qed.

(** X16: what a successful run leaves on the page.  [main] returns
    normally, writes the blog text of the report and shows its
    formatted code as Python; and every download button on the page
    offers that blog text or that code under a file name built from the
    topic that holds no space. *)
Theorem main_shows_result env topic rep tr :
  topic <> [] ->
  generate_technical_content env topic (Some Callable) (Some Callable) []
  = (Ok rep, tr) ->
  exists pg,
    main env (Ok tt) topic true = (Ok tt, pg, tr)
    /\ In (StWrite (blog_content rep)) (screen pg)
    /\ In (StCode (formatted (code_example_of rep)) (lit "python")) (screen pg)
    /\ forall label data file_name mime,
        In (StDownloadButton label data file_name mime) (screen pg) ->
        ~ In 32%N file_name
        /\ List.length file_name >= List.length topic
        /\ (data = blog_content rep \/ data = formatted (code_example_of rep)).
Proof.
  intros Hne H.
  destruct topic as [|c0 topic0]; [contradiction|].
  set (topic := c0 :: topic0) in *.
  unfold main. fold topic. unfold topic at 1. rewrite H.
  clearbody topic.
  eexists. split; [reflexivity|].
  rewrite fold_show_screen.
  split; [|split].
  - apply in_or_app. right. unfold result_widgets. cbn [In]. tauto.
  - apply in_or_app. right. unfold result_widgets. cbn [In]. tauto.
  - intros label data file_name mime Hin.
    apply in_app_or in Hin. destruct Hin as [Hin|Hin].
    + destruct (replay_screen tr first_page) as (ws & Hs & HF).
      rewrite Hs in Hin. apply in_app_or in Hin. destruct Hin as [Hin|Hin].
      * simpl in Hin. intuition discriminate.
      * rewrite Forall_forall in HF. destruct (HF _ Hin).
    + assert (Hlen : List.length (replace_spaces topic) = List.length topic)
        by (unfold replace_spaces; apply length_map).
      unfold result_widgets in Hin. cbn [In] in Hin.
      destruct Hin as [Hin|[Hin|[Hin|[Hin|[Hin|[Hin|[Hin|[]]]]]]]];
        try discriminate; injection Hin as <- <- <- <-.
      * split; [|split; [|now left]].
        -- intros Hi. apply in_app_or in Hi. destruct Hi as [Hi|Hi].
           ++ exact (replace_spaces_no_space topic Hi).
           ++ vm_compute in Hi. intuition discriminate.
        -- rewrite length_app, Hlen. lia.
      * split; [|split; [|now right]].
        -- intros Hi. apply in_app_or in Hi. destruct Hi as [Hi|Hi].
           ++ exact (replace_spaces_no_space topic Hi).
           ++ vm_compute in Hi. intuition discriminate.
        -- rewrite length_app, Hlen. lia.
Qed.

Lemma main_shows_result_witness :
  exists pg tr,
    main happy_env (Ok tt) (lit "my topic") true = (Ok tt, pg, tr)
    /\ In (StWrite (lit "D using R")) (screen pg)
    /\ In (StDownloadButton (lit "Download Code Example") (lit "print(1)")
             (lit "my_topic_code_example.py") (lit "text/python")) (screen pg).
Proof.
  destruct (main_shows_result happy_env (lit "my topic")
              (match fst (generate_technical_content happy_env (lit "my topic")
                            (Some Callable) (Some Callable) []) with
               | Ok rep => rep
               | Raise _ =>
                   {| blog_structure := []; blog_content := [];
                      code_example_of :=
                        {| original := []; formatted := [];
                           language := []; explanation := [] |} |}
               end)
              (snd (generate_technical_content happy_env (lit "my topic")
                      (Some Callable) (Some Callable) [])))
    as (pg & Hm & Hw & _).
  - discriminate.
  - vm_compute. reflexivity.
  - exists pg. eexists. split; [exact Hm|]. split; [exact Hw|].
    vm_compute in Hm. injection Hm as <-. vm_compute. tauto.
Defined.

End AppFacts.

(* ================================================================== *)
(** ** The stand-alone scripts: what they do *)

Module AgentsFacts.
Import Script Agents.

Lemma calls_app a b : calls (a ++ b) = calls a ++ calls b.
Proof.
  induction a as [|e a IH]; simpl; auto.
  destruct e; simpl; now rewrite IH.
Qed.

Ltac next_call w :=
  match goal with
  | |- context [w ?t ?m ?i] =>
      let a := fresh "a" in
      let e := fresh "e" in
      let E := fresh "E" in
      destruct (w t m i) as [a|e] eqn:E; cbn [app]
  end.

(** X17: how [collaborative_problem_solving] chains its models.  When
    it returns a dictionary, exactly four calls were made, in the order
    research, creative, analytical, creative; each prompt quotes the
    earlier outputs that the dictionary holds, the last one all three.
    When a call fails, the function raises that error at once: the
    failed call is the last event, nothing is printed after it and no
    later model is called. *)
Theorem collaborative_problem_solving_flow w initial_problem r tr :
  collaborative_problem_solving w initial_problem [] = (r, tr) ->
  match r with
  | Ok d => calls tr = calls_behind initial_problem d
  | Raise e =>
      exists pre m i,
        tr = pre ++ [Call m i] /\ w pre m i = Raise e
        /\ List.length (calls pre) < 4
  end.
Proof.
  unfold collaborative_problem_solving, invoke, print, sbind, sask, semit, sret.
  cbn [app].
  next_call w.
  2:{ intros H. injection H as <- <-. exists [], research_model,
        (research_prompt initial_problem). repeat split; auto; simpl; lia. }
  next_call w.
  2:{ intros H. injection H as <- <-. eexists; eexists; eexists.
      split; [|split; [exact E0|]]; [reflexivity | simpl; lia]. }
  next_call w.
  2:{ intros H. injection H as <- <-. eexists; eexists; eexists.
      split; [|split; [exact E1|]]; [reflexivity | simpl; lia]. }
  next_call w.
  2:{ intros H. injection H as <- <-. eexists; eexists; eexists.
      split; [|split; [exact E2|]]; [reflexivity | simpl; lia]. }
  intros H. injection H as <- <-. reflexivity.
Qed.

Lemma collaborative_problem_solving_flow_witness :
  (exists d tr,
      collaborative_problem_solving echo_world (lit "problem") [] = (Ok d, tr)
      /\ calls tr = calls_behind (lit "problem") d
      /\ final_strategy d = lit "ideas")
  /\ exists tr,
      collaborative_problem_solving broken_world (lit "problem") []
      = (Raise (exn_of OtherException "timeout"), tr)
      /\ List.length (calls tr) = 3.
Proof.
  split.
  - eexists. eexists. split; [vm_compute; reflexivity|].
    split; [|reflexivity].
    apply (collaborative_problem_solving_flow echo_world (lit "problem") (Ok _)).
    vm_compute. reflexivity.
  - eexists. split; [vm_compute; reflexivity|]. reflexivity.
Defined.

End AgentsFacts.

Module ContentCodeFacts.
Import Script ContentCode.

Ltac next_answer w :=
  match goal with
  | |- context [answer w ?t ?m ?i] =>
      let a := fresh "a" in
      let e := fresh "e" in
      let E := fresh "E" in
      destruct (answer w t m i) as [a|e] eqn:E; cbn [app]
  end.

(** Every run of this file's [generate_technical_content] raises; its
    trace holds no formatter run, and when the three models answer the
    error is the [AttributeError] of [code_example.code]. *)
Ltac stopped_early :=
  eexists; eexists; split; [reflexivity|]; split; [reflexivity|];
  split; [simpl; lia|];
  let H := fresh "Hall" in
  intros H; exfalso;
  match goal with
  | E : answer _ ?t ?m ?i = Raise _ |- _ =>
      let b := fresh "b" in
      let Hb := fresh "Hb" in
      destruct (H t m i) as [b Hb]; congruence
  end.

Lemma generate_always_raises w topic :
  exists e tr,
    generate_technical_content w topic [] = (Raise e, tr)
    /\ existsb after_attribute tr = false
    /\ List.length (calls tr) <= 3
    /\ ((forall t m i, exists a, answer w t m i = Ok a) ->
        e = {| exn_cls := AttributeError;
               exn_text := lit "'AIMessage' object has no attribute 'code'" |}
        /\ calls tr = [research_model; creative_model; code_model]).
Proof.
  unfold generate_technical_content, invoke, print, missing_attribute,
    sbind, sask, semit, sret, sraise.
  cbn [app].
  next_answer w; [|stopped_early].
  next_answer w; [|stopped_early].
  next_answer w; [|stopped_early].
  eexists; eexists. split; [reflexivity|]. split; [reflexivity|].
  split; [simpl; lia|]. intros _. split; reflexivity.
Qed.

(** X18: the script of content_code_collaboration.py cannot finish.
    Its code chain has no output parser, so what it returns is a chat
    message, and reading [code_example.code] raises.  Whatever the
    models answer, [main] ends with an exception before it creates the
    output directory or writes a file, and no formatter is ever run;
    when the constructor works and the three models answer, the three
    calls are made and the exception is that [AttributeError]. *)
Theorem main_never_writes w :
  exists e tr,
    main w [] = (Raise e, tr)
    /\ existsb after_attribute tr = false
    /\ (init w = Ok tt ->
        (forall t m i, exists a, answer w t m i = Ok a) ->
        e = {| exn_cls := AttributeError;
               exn_text := lit "'AIMessage' object has no attribute 'code'" |}
        /\ calls tr = [research_model; creative_model; code_model]).
Proof.
  unfold main. unfold sbind at 1.
  destruct (init w) as [[]|e0] eqn:Ei.
  - destruct (generate_always_raises w
                (lit "Building a Real-Time Collaborative AI Assistant"))
      as (e & tr & Hrun & Hno & _ & Hattr).
    exists e, tr. unfold sbind at 1. rewrite Hrun.
    split; [reflexivity|]. split; [exact Hno|].
    intros _ Hans. now apply Hattr.
  - exists e0, []. split; [reflexivity|]. split; [reflexivity|].
    intros H. discriminate H.
Qed.

Lemma main_never_writes_witness :
  exists tr,
    main working_world []
    = (Raise {| exn_cls := AttributeError;
                exn_text := lit "'AIMessage' object has no attribute 'code'" |},
       tr)
    /\ calls tr = [research_model; creative_model; code_model]
    /\ existsb after_attribute tr = false.
Proof.
  destruct (main_never_writes working_world) as (e & tr & Hrun & Hno & Hattr).
  destruct Hattr as [-> Hc].
  - reflexivity.
  - intros t m i. eexists. reflexivity.
  - exists tr. split; [exact Hrun|]. split; [exact Hc | exact Hno].
Defined.

End ContentCodeFacts.

Module MultiModelFacts.
Import Script MultiModel.

Lemma printed_app a b : printed (a ++ b) = printed a ++ printed b.
Proof.
  induction a as [|e a IH]; simpl; auto.
  destruct e; simpl; now rewrite IH.
Qed.

Section Examples.

Variable w : world.
Hypothesis Hw : only_exceptions w.

Lemma openai_example_lines tr :
  exists r ext,
    openai_example w tr = (Ok r, tr ++ ext)
    /\ In (Build OpenAI) ext
    /\ printed ext ++ [or_no_result r]
       = lines_after w OpenAI
           (attempt w OpenAI
              (lit "Explain artificial intelligence in a way a 5-year-old would understand.")).
Proof.
  destruct Hw as (_ & Hb & Hc).
  unfold openai_example, scatch, sbind, sask, print, semit, sret, sraise, attempt.
  destruct (build w OpenAI) as [[]|e] eqn:Eb.
  - destruct (complete w OpenAI _) as [a|e] eqn:Ec.
    + eexists; eexists. rewrite <- app_assoc. split; [reflexivity|].
      split; [simpl; auto|]. now destruct a.
    + rewrite (Hc _ _ _ Ec). eexists; eexists. rewrite <- !app_assoc.
      split; [reflexivity|]. split; [simpl; auto | reflexivity].
  - rewrite (Hb _ _ Eb). eexists; eexists. rewrite <- !app_assoc.
    split; [reflexivity|]. split; [simpl; auto | reflexivity].
Qed.

Lemma claude_example_lines tr :
  exists r ext,
    claude_example w tr = (Ok r, tr ++ ext)
    /\ In (Build Claude) ext
    /\ printed ext ++ [or_no_result r]
       = lines_after w Claude
           (attempt w Claude
              (lit "Provide a detailed strategy for reducing plastic waste in oceans.")).
Proof.
  destruct Hw as (_ & Hb & Hc).
  unfold claude_example, scatch, sbind, sask, print, semit, sret, sraise, attempt.
  destruct (build w Claude) as [[]|e] eqn:Eb.
  - destruct (complete w Claude _) as [a|e] eqn:Ec.
    + eexists; eexists. rewrite <- app_assoc. split; [reflexivity|].
      split; [simpl; auto|]. now destruct a.
    + rewrite (Hc _ _ _ Ec). eexists; eexists. rewrite <- !app_assoc.
      split; [reflexivity|]. split; [simpl; auto | reflexivity].
  - rewrite (Hb _ _ Eb). eexists; eexists. rewrite <- !app_assoc.
    split; [reflexivity|]. split; [simpl; auto | reflexivity].
Qed.

Lemma huggingface_example_lines tr :
  exists r ext,
    huggingface_example w tr = (Ok r, tr ++ ext)
    /\ In Import ext
    /\ printed ext ++ [or_no_result r]
       = lines_after w HuggingFace
           (attempt w HuggingFace
              (lit "Given the context of In a world where robots and humans coexist peacefully, continue the story in an imaginative way.")).
Proof.
  destruct Hw as (Hi & Hb & Hc).
  unfold huggingface_example, scatch, sbind, sask, print, semit, sret, sraise,
    attempt, lines_after, failure_line.
  destruct (import_pipeline w) as [[]|e] eqn:Ei.
  - destruct (build w HuggingFace) as [[]|e] eqn:Eb.
    + destruct (complete w HuggingFace _) as [a|e] eqn:Ec.
      * eexists; eexists. rewrite <- !app_assoc. split; [reflexivity|].
        split; [simpl; auto|]. now destruct a.
      * destruct (is_ImportError w e); [|rewrite (Hc _ _ _ Ec)];
          eexists; eexists; rewrite <- !app_assoc;
          (split; [reflexivity|]); (split; [simpl; auto | reflexivity]).
    + destruct (is_ImportError w e); [|rewrite (Hb _ _ Eb)];
        eexists; eexists; rewrite <- !app_assoc;
        (split; [reflexivity|]); (split; [simpl; auto | reflexivity]).
  - destruct (is_ImportError w e); [|rewrite (Hi _ eq_refl)];
      eexists; eexists; rewrite <- ?app_assoc;
      (split; [reflexivity|]); (split; [simpl; auto | reflexivity]).
Qed.

End Examples.

(** X19: the three examples are kept apart.  As long as what the
    providers raise are [Exception]s, [main] returns normally and every
    example is started whatever happened to the one before.  Under each
    header it prints the answer, or, when the example failed, one
    failure line (the install hint for an [ImportError] in the Hugging
    Face example) and then `No result`; an empty answer prints
    `No result` as well. *)
Theorem main_keeps_examples_apart w :
  only_exceptions w ->
  exists tr,
    main w [] = (Ok tt, tr)
    /\ In (Build OpenAI) tr /\ In Import tr /\ In (Build Claude) tr
    /\ printed tr
       = [lit "OpenAI Example:"]
         ++ lines_after w OpenAI
              (attempt w OpenAI
                 (lit "Explain artificial intelligence in a way a 5-year-old would understand."))
         ++ [nl ++ lit "Hugging Face Example:"]
         ++ lines_after w HuggingFace
              (attempt w HuggingFace
                 (lit "Given the context of In a world where robots and humans coexist peacefully, continue the story in an imaginative way."))
         ++ [nl ++ lit "Claude Example:"]
         ++ lines_after w Claude
              (attempt w Claude
                 (lit "Provide a detailed strategy for reducing plastic waste in oceans.")).
Proof.
  intros Hw. unfold main.
  unfold sbind at 1, print at 1, semit at 1. cbn [app].
  destruct (openai_example_lines w Hw [Print (lit "OpenAI Example:")])
    as (r1 & e1 & H1 & Hi1 & Hl1).
  unfold sbind at 1. rewrite H1.
  unfold sbind at 1, print at 1, semit at 1.
  unfold sbind at 1, print at 1, semit at 1.
  destruct (huggingface_example_lines w Hw
              ((([Print (lit "OpenAI Example:")] ++ e1)
                ++ [Print (or_no_result r1)])
               ++ [Print (nl ++ lit "Hugging Face Example:")]))
    as (r2 & e2 & H2 & Hi2 & Hl2).
  unfold sbind at 1. rewrite H2.
  unfold sbind at 1, print at 1, semit at 1.
  unfold sbind at 1, print at 1, semit at 1.
  destruct (claude_example_lines w Hw
              (((((([Print (lit "OpenAI Example:")] ++ e1)
                   ++ [Print (or_no_result r1)])
                  ++ [Print (nl ++ lit "Hugging Face Example:")]) ++ e2)
                ++ [Print (or_no_result r2)])
               ++ [Print (nl ++ lit "Claude Example:")]))
    as (r3 & e3 & H3 & Hi3 & Hl3).
  unfold sbind at 1. rewrite H3.
  unfold print, semit.
  eexists. split; [reflexivity|].
  rewrite <- Hl1, <- Hl2, <- Hl3.
  repeat split.
  - rewrite !in_app_iff. tauto.
  - rewrite !in_app_iff. tauto.
  - rewrite !in_app_iff. tauto.
  - rewrite !printed_app. cbn [printed app]. rewrite <- !app_assoc.
    reflexivity.
Qed.

Lemma main_keeps_examples_apart_witness :
  exists tr,
    main sample_world [] = (Ok tt, tr)
    /\ printed tr
       = [lit "OpenAI Example:";
          lit "No result";
          nl ++ lit "Hugging Face Example:";
          lit "Hugging Face example requires PyTorch or TensorFlow. Install using: pip install torch transformers";
          lit "No result";
          nl ++ lit "Claude Example:";
          lit "Claude example failed: credit balance too low";
          lit "No result"].
Proof.
  destruct (main_keeps_examples_apart sample_world) as (tr & Hrun & _ & _ & _ & Hp).
  - repeat split.
    + intros e H. injection H as <-. reflexivity.
    + intros p e H. discriminate H.
    + intros p s e H. destruct p; try discriminate H.
      injection H as <-. reflexivity.
  - exists tr. split; [exact Hrun|]. rewrite Hp. reflexivity.
Defined.

End MultiModelFacts.
